(** * airquality-exporter: the command executor and the device controller

    A shallow embedding of [main.go] (versions 0.26 and 0.27 share the code
    modelled here): [sensorMakePassive], the retry/timeout executor around
    [sensor.MakePassive], and [recordMetrics], the start-up sequence and the
    measurement loop that feeds the [airquality_pm] gauge. *)

From Stdlib Require Import ZArith Lia QArith_base.
From stdpp Require Import gmap strings list list_numbers pretty sorting.

Open Scope Z_scope.

(** ** Go's fixed-width integers

    The image is built with [GOARCH=arm64]: [int] and [time.Duration] are
    64-bit two's complement integers, [uint8] is an octet.  Values are
    integers of [Z]; every operation that can leave the range wraps. *)

Module GoInt.

Definition MaxInt64 : Z := 2 ^ 63 - 1.
Definition MinInt64 : Z := - 2 ^ 63.

(** The 64-bit two's complement value of an integer result. *)
Definition wrap64 (z : Z) : Z := (z + 2 ^ 63) `mod` 2 ^ 64 - 2 ^ 63.

(** The conversion [uint8(x)] of an [int]: the low eight bits. *)
Definition uint8 (z : Z) : Z := Z.land z 255.

Definition is_int64 (z : Z) : Prop := MinInt64 <= z <= MaxInt64.
Definition is_uint8 (z : Z) : Prop := 0 <= z <= 255.

End GoInt.

(** ** The command executor: [sensorMakePassive] *)

Module Executor.
Import GoInt.

(** The constants of [main.go]. *)
Definition retries : Z := 0.
Definition apiCallTimeout : Z := 10.

(** [time.Second], in nanoseconds, the unit of [time.Duration]. *)
Definition Second : Z := 1000000000.

(** [a * b] on [time.Duration]. *)
Definition mulDuration (a b : Z) : Z := wrap64 (a * b).

(** The driver is outside the program: the [i]-th call of
    [sensor.MakePassive] returns after [returns_after] nanoseconds ([None]:
    it never returns) with the error [returns_err] ([None] is [nil]). *)
Record call := Call {
  returns_after : option Z;
  returns_err : option string
}.

Definition sensor := nat -> call.

(** A goroutine started by [go func() {...}()]: it reaches its send on
    [response] at [g_sends_at] and blocks there, the channel being
    unbuffered, until a receive takes [g_sends]. *)
Record goroutine := Goroutine {
  g_call : nat;
  g_sends_at : option Z;
  g_sends : option string
}.

(** The body of the goroutine, started at [now] for the [id]-th call. *)
Definition go_func (s : sensor) (id : nat) (now : Z) : goroutine :=
  {| g_call := id;
     g_sends_at := Z.add now <$> returns_after (s id);
     g_sends :=
       match returns_err (s id) with
       | None => None
       | Some err => Some ("Cannot switch sensor to passive mode: " +:+ err)
       end |}.

(** What the executor does, in order. *)
Inductive event :=
| EvSleep (d : Z)
| EvGo (id : nat)
| EvResponse (from : nat) (err : option string)
| EvAfter (retry : Z).

(** The local state of one call of [sensorMakePassive].  [response] is the
    channel made once, before the loop: it holds, in the order they were
    started, the goroutines whose send has not been received. *)
Record state := State {
  clock : Z;
  response : list goroutine;
  started : nat;
  responseError : option string;
  trace : list event
}.

Definition init : state :=
  {| clock := 0; response := []; started := 0%nat;
     responseError := None; trace := [] |}.

(** The sender a receive on the channel is served by: the goroutine that
    reached its send first (the runtime queues blocked senders in that
    order); of two that reach it at the same instant, the one started
    first. *)
Fixpoint first_sender (q : list goroutine) : option (Z * goroutine) :=
  match q with
  | [] => None
  | g :: q' =>
      match g_sends_at g, first_sender q' with
      | None, r => r
      | Some t, None => Some (t, g)
      | Some t, Some (t', g') => if t <=? t' then Some (t, g) else Some (t', g')
      end
  end.

Definition remove_sender (id : nat) (q : list goroutine) : list goroutine :=
  filter (λ g, g_call g ≠ id) q.

(** [time.Sleep(d)]: returns at once when [d <= 0]. *)
Definition sleep (d : Z) (st : state) : state :=
  {| clock := clock st + Z.max 0 d;
     response := response st;
     started := started st;
     responseError := responseError st;
     trace := trace st ++ [EvSleep d] |}.

(** [go func() {...}()]. *)
Definition spawn (s : sensor) (st : state) : state :=
  {| clock := clock st;
     response := response st ++ [go_func s (started st) (clock st)];
     started := S (started st);
     responseError := responseError st;
     trace := trace st ++ [EvGo (started st)] |}.

(** The [select]: the receive wins when a sender reaches the channel before
    the timer of [time.After] fires, the timer otherwise.  The clock is
    that of timers that fire the instant their duration has passed and of
    statements that take no time; a timer of the runtime fires then or
    later, so that [clock] is the earliest instant at which the program
    can be where the state says, not a bound on how late it gets there. *)
Inductive selected :=
| Response (g : goroutine) (at_ : Z)
| After (at_ : Z).

Definition select (now : Z) (q : list goroutine) : selected :=
  let deadline := now + mulDuration Second apiCallTimeout in
  match first_sender q with
  | Some (t, g) => if t <? deadline then Response g (Z.max now t) else After deadline
  | None => After deadline
  end.

(** [fmt.Errorf("Device API response timeout (%d retries)", retry)]. *)
Definition timeout_error (retry : Z) : string :=
  "Device API response timeout (" +:+ pretty retry +:+ " retries)".

Definition received (g : goroutine) (t : Z) (st : state) : state :=
  {| clock := t;
     response := remove_sender (g_call g) (response st);
     started := started st;
     responseError := g_sends g;
     trace := trace st ++ [EvResponse (g_call g) (g_sends g)] |}.

Definition timed_out (retry t : Z) (st : state) : state :=
  {| clock := t;
     response := response st;
     started := started st;
     responseError := Some (timeout_error retry);
     trace := trace st ++ [EvAfter retry] |}.

(** One iteration of the loop up to the [select]. *)
Definition attempt_prologue (s : sensor) (retry : Z) (st : state) : state :=
  spawn s (if 0 <? retry then sleep (mulDuration Second retry) st else st).

(** The loop [for retry := 0; retry <= retries; retry++].  [fuel] bounds the
    number of iterations; [None] is a loop that has not finished within
    it.  [max_retries] stands for the constant [retries]. *)
Fixpoint loop (fuel : nat) (max_retries : Z) (s : sensor) (retry : Z) (st : state)
  : option state :=
  if retry <=? max_retries then
    match fuel with
    | O => None
    | S fuel' =>
        let st1 := attempt_prologue s retry st in
        match select (clock st1) (response st1) with
        | Response g t =>
            match g_sends g with
            | None => Some (received g t st1)
            | Some _ =>
                loop fuel' max_retries s (wrap64 (retry + 1)) (received g t st1)
            end
        | After t =>
            loop fuel' max_retries s (wrap64 (retry + 1)) (timed_out retry t st1)
        end
    end
  else Some st.

(** [sensorMakePassive] with [retries] as a parameter; what it returns is
    the [responseError] of the final state. *)
Definition sensorMakePassive_with (fuel : nat) (max_retries : Z) (s : sensor)
  : option state :=
  loop fuel max_retries s 0 init.

(** [sensorMakePassive] as compiled: [retries = 0], one iteration. *)
Definition sensorMakePassive (s : sensor) : option state :=
  sensorMakePassive_with 1 retries s.

(** *** Vocabulary for the statements about the executor *)

(** A sensor given by the answers to its first calls; a call beyond them
    never returns. *)
Definition sensor_of (l : list call) : sensor :=
  λ i, default (Call None None) (l !! i).

(** The sensor that never answers. *)
Definition silent : sensor := sensor_of [].

(** The outcome [e] of the [select] of attempt [retry] is a failure: the
    timer fired, or an error was received. *)
Definition attempt_fails (retry : Z) (e : event) : Prop :=
  e = EvAfter retry ∨ ∃ from err, e = EvResponse from (Some err).

(** What the [select] assigns to [responseError]. *)
Definition reason (e : event) : option string :=
  match e with
  | EvResponse _ err => err
  | EvAfter retry => Some (timeout_error retry)
  | _ => None
  end.

(** No [select] of the run received [nil]. *)
Definition every_attempt_fails (st : state) : Prop :=
  ∀ from, EvResponse from None ∉ trace st.

(** The events of attempt [k] whose [select] ended in [o], when the sleep
    before attempt [k > 0] lasts [delay k]; and those of the attempts
    [k], [k + 1], ... with the outcomes [os]. *)
Definition attempt_events (delay : Z -> Z) (k : nat) (o : event) : list event :=
  (if 0 <? Z.of_nat k then [EvSleep (delay (Z.of_nat k))] else []) ++ [EvGo k; o].

Fixpoint attempts_from (delay : Z -> Z) (k : nat) (os : list event) : list event :=
  match os with
  | [] => []
  | o :: os' => attempt_events delay k o ++ attempts_from delay (S k) os'
  end.

(** [k] seconds, as a number of nanoseconds. *)
Definition seconds (k : Z) : Z := k * Second.

(** The durations slept and the calls started, in order. *)
Definition sleeps (tr : list event) : list Z :=
  omap (λ e, match e with EvSleep d => Some d | _ => None end) tr.

Definition calls (tr : list event) : list nat :=
  omap (λ e, match e with EvGo id => Some id | _ => None end) tr.

(** A call that outlasts the timeout of its attempt: it returns strictly
    after the timer has fired, or never. *)
Definition outlasts_timeout (c : call) : Prop :=
  match returns_after c with
  | None => True
  | Some d => mulDuration Second apiCallTimeout < d
  end.

(** The result of an abandoned call is never received: whenever the timer
    of attempt [k] fired, no [select] of the run received from the
    goroutine of attempt [k]. *)
Definition abandoned_never_consumed (st : state) : Prop :=
  ∀ (k : nat) err, EvAfter (Z.of_nat k) ∈ trace st → EvResponse k err ∉ trace st.

(** The state at the [select] of the first attempt. *)
Definition first_attempt_of (s : sensor) : state :=
  {| clock := 0; response := [go_func s 0 0]; started := 1;
     responseError := None; trace := [EvGo 0] |}.

(** A call that never returns [nil], and a call that fails its attempt:
    it returns an error, or outlasts the timeout. *)
Definition never_nil (c : call) : Prop :=
  returns_after c = None \/ exists err, returns_err c = Some err.

Definition call_fails (c : call) : Prop :=
  outlasts_timeout c \/ exists err, returns_err c = Some err.

(** Two sensors whose first call returns half a second after the timeout,
    one with [nil] and one with an error; a sensor whose first call
    returns [nil] that late and whose second call returns an error after
    200 ms; and a number of retries whose back-off no longer fits a
    [time.Duration]. *)
Definition late_ok : sensor := sensor_of [Call (Some 10500000000) None].
Definition late_err : sensor := sensor_of [Call (Some 10500000000) (Some "EOF")].
Definition late_ok_then_err : sensor :=
  sensor_of [Call (Some 10500000000) None; Call (Some 200000000) (Some "EOF")].
Definition many_retries : Z := 9223372037.

(** *** Vocabulary for the runs of the executor in general *)

(** The goroutines a run has received from, and the attempts whose timer
    fired, in order. *)
Definition received_from (tr : list event) : list nat :=
  omap (λ e, match e with EvResponse from _ => Some from | _ => None end) tr.

Definition timeouts (tr : list event) : list Z :=
  omap (λ e, match e with EvAfter retry => Some retry | _ => None end) tr.

(** What the goroutine of the [id]-th call sends once the call has
    returned. *)
Definition sent (s : sensor) (id : nat) : option string :=
  g_sends (go_func s id 0).

(** The [select] received [nil]. *)
Definition attempt_succeeds (e : event) : Prop :=
  exists from, e = EvResponse from None.

(** The time the executor has asked its timers for: the duration of a
    sleep, none when it is not positive, and the timeout for each timer of
    [time.After] that fired. *)
Definition waits (e : event) : Z :=
  match e with
  | EvSleep d => Z.max 0 d
  | EvAfter _ => mulDuration Second apiCallTimeout
  | _ => 0
  end.

Fixpoint waited (tr : list event) : Z :=
  match tr with
  | [] => 0
  | e :: tr' => waits e + waited tr'
  end.

(** Every call started is accounted for: its goroutine is still on the
    channel or its send has been received, one or the other; every
    attempt has ended in a receive or in a timeout; and what is on the
    channel or was received is what the calls return. *)
Definition accounted (s : sensor) (st : state) : Prop :=
  (g_call <$> response st) ++ received_from (trace st) ≡ₚ seq 0 (started st) /\
  (length (received_from (trace st)) + length (timeouts (trace st)))%nat = started st /\
  (forall g, g ∈ response st ->
             g_sends g = sent s (g_call g) /\
             (is_Some (g_sends_at g) <-> is_Some (returns_after (s (g_call g))))) /\
  (forall from err, EvResponse from err ∈ trace st ->
                    err = sent s from /\ is_Some (returns_after (s from))).

End Executor.

(** ** The device controller: [recordMetrics] *)

Module Controller.
Import GoInt.

(** What a driver call returns: a value, or an error. *)
Inductive result (A : Type) :=
| Ok (a : A)
| Err (err : string).
Arguments Ok {A} a.
Arguments Err {A} err.

Section Controller.

(** Go's [float64].  The program only carries these values from the driver
    to the gauge, so they stay abstract. *)
Context {float64 : Type}.

(** [sds011.Point]. *)
Record Point := MkPoint {
  PM25 : float64;
  PM10 : float64
}.

(** The flags read by [recordMetrics]. *)
Record flags := Flags {
  portPath : string;
  cycle : Z;
  forceSetCycle : bool
}.

(** The sensor behind the driver: what each call answers.  [dev_New] is the
    error of [sds011.New], [dev_Get i] the answer to the [i]-th
    [sensor.Get].  Every call answers, with a value or with an error (the
    call of [sensor.MakePassive] apart, which may take forever); a panic
    inside the driver, which ends the process from outside [recordMetrics],
    is no answer of this kind and none of the runs below. *)
Record device := Device {
  dev_New : option string;
  dev_MakePassive : Executor.sensor;
  dev_Cycle : result Z;
  dev_SetCycle : Z -> option string;
  dev_MakeActive : option string;
  dev_Get : nat -> result Point
}.

(** What [recordMetrics] does to the outside, in order. *)
Inductive action :=
| New (path : string)
| Passive (e : Executor.event)
| Cycle
| SetCycle (v : Z)
| MakeActive
| Get
| GaugeSet (label : string) (v : float64)
| Exit (code : Z).

Inductive status :=
| Running
| Exited (code : Z)
| Blocked.

(** The process as [recordMetrics] sees it.  [airqualityPM] is the gauge
    vector: the value last set under each value of the label [type]. *)
Record process := Process {
  actions : list action;
  airqualityPM : gmap string float64;
  state : status
}.

Definition start : process :=
  {| actions := []; airqualityPM := ∅; state := Running |}.

Definition act (a : action) (p : process) : process :=
  {| actions := actions p ++ [a];
     airqualityPM := airqualityPM p;
     state := state p |}.

(** [os.Exit(code)]: nothing of [recordMetrics] runs after it, the deferred
    [sensor.Close()] included. *)
Definition exit (code : Z) (p : process) : process :=
  {| actions := actions p ++ [Exit code];
     airqualityPM := airqualityPM p;
     state := Exited code |}.

(** [airqualityPM.WithLabelValues(label).Set(v)]. *)
Definition gaugeSet (label : string) (v : float64) (p : process) : process :=
  {| actions := actions p ++ [GaugeSet label v];
     airqualityPM := <[label := v]> (airqualityPM p);
     state := state p |}.

(** Sequencing: the next statement runs only in a process still running. *)
Definition and_then (p : process) (k : process -> process) : process :=
  match state p with
  | Running => k p
  | _ => p
  end.

(** [sensor, err := sds011.New( *portPath)]. *)
Definition open_sensor (f : flags) (dev : device) (p : process) : process :=
  let p := act (New (portPath f)) p in
  match dev_New dev with
  | Some _ => exit 1 p
  | None => p
  end.

(** [if err := sensorMakePassive(sensor); err != nil].  The executor
    always returns ([retries = 0]: one iteration); were it not to, the
    process would stay [Blocked] in the call. *)
Definition make_passive (dev : device) (p : process) : process :=
  match Executor.sensorMakePassive (dev_MakePassive dev) with
  | None =>
      {| actions := actions p; airqualityPM := airqualityPM p; state := Blocked |}
  | Some st =>
      let p :=
        {| actions := actions p ++ (Passive <$> Executor.trace st);
           airqualityPM := airqualityPM p;
           state := state p |} in
      match Executor.responseError st with
      | Some _ => exit 1 p
      | None => p
      end
  end.

(** [if err := sensor.SetCycle(uint8( *cycle)); err != nil]. *)
Definition set_cycle (f : flags) (dev : device) (p : process) : process :=
  let p := act (SetCycle (uint8 (cycle f))) p in
  match dev_SetCycle dev (uint8 (cycle f)) with
  | Some _ => exit 1 p
  | None => p
  end.

(** The branch on [*forceSetCycle]. *)
Definition configure_cycle (f : flags) (dev : device) (p : process) : process :=
  if forceSetCycle f then set_cycle f dev p
  else
    let p := act Cycle p in
    match dev_Cycle dev with
    | Err _ => exit 1 p
    | Ok currentCycle =>
        if bool_decide (currentCycle ≠ uint8 (cycle f)) then set_cycle f dev p
        else p
    end.

(** [if err := sensor.MakeActive(); err != nil]. *)
Definition make_active (dev : device) (p : process) : process :=
  let p := act MakeActive p in
  match dev_MakeActive dev with
  | Some _ => exit 1 p
  | None => p
  end.

(** The statements of [recordMetrics] before the [for]. *)
Definition startup (f : flags) (dev : device) : process :=
  and_then (and_then (and_then (open_sensor f dev start)
    (make_passive dev)) (configure_cycle f dev)) (make_active dev).

(** The body of the [for], run for the [i]-th time. *)
Definition iteration (dev : device) (i : nat) (p : process) : process :=
  let p := act Get p in
  match dev_Get dev i with
  | Err _ => p
  | Ok point => gaugeSet "pm10" (PM10 point) (gaugeSet "pm2.5" (PM25 point) p)
  end.

(** The [for] has no condition and no [break]: [read_loop n i] is its
    first [n] iterations from the [i]-th on. *)
Fixpoint read_loop (dev : device) (n : nat) (i : nat) (p : process) : process :=
  match n with
  | O => p
  | S n' => read_loop dev n' (S i) (iteration dev i p)
  end.

(** [recordMetrics], observed until the process has exited or the loop
    has run [n] times. *)
Definition recordMetrics (f : flags) (dev : device) (n : nat) : process :=
  and_then (startup f dev) (read_loop dev n 0).

(** *** Vocabulary for the statements about the controller *)

(** The start-up went through: the process reaches the [for]. *)
Definition startup_succeeds (f : flags) (dev : device) : Prop :=
  state (startup f dev) = Running.

(** [sensorMakePassive] returns [nil]. *)
Definition passive_ok (dev : device) : Prop :=
  Executor.responseError <$> Executor.sensorMakePassive (dev_MakePassive dev)
  = Some None.

(** The values of the [sensor.SetCycle] calls, in order. *)
Definition set_cycle_calls (l : list action) : list Z :=
  omap (λ a, match a with SetCycle v => Some v | _ => None end) l.

(** A start-up step that failed: the call was answered with an error, or
    the attempt of the executor failed. *)
Definition failed (dev : device) (a : action) : Prop :=
  match a with
  | New _ => is_Some (dev_New dev)
  | Passive e => Executor.attempt_fails 0 e
  | Cycle => exists err, dev_Cycle dev = Err err
  | SetCycle v => is_Some (dev_SetCycle dev v)
  | MakeActive => is_Some (dev_MakeActive dev)
  | Get | GaugeSet _ _ | Exit _ => False
  end.

(** The step of the start-up sequence an action belongs to: open, passive
    mode, cycle configuration, active mode, read loop; the exit comes
    last. *)
Definition phase (a : action) : nat :=
  match a with
  | New _ => 0
  | Passive _ => 1
  | Cycle | SetCycle _ => 2
  | MakeActive => 3
  | Get | GaugeSet _ _ => 4
  | Exit _ => 5
  end%nat.

Definition cycle_access (a : action) : Prop :=
  match a with
  | Cycle | SetCycle _ => True
  | _ => False
  end.

(** Every action of [l] that satisfies [Q] comes after one that
    satisfies [P]. *)
Definition preceded_by (P Q : action -> Prop) (l : list action) : Prop :=
  forall l1 a l2, l = l1 ++ a :: l2 -> Q a -> exists b, b ∈ l1 /\ P b.

(** After a failed step comes the exit with status 1, and nothing else. *)
Definition fails_fast (dev : device) (l : list action) : Prop :=
  forall l1 a l2, l = l1 ++ a :: l2 -> failed dev a -> l2 = [Exit 1].

(** The actions of [n] iterations of the [for], from the [i]-th on. *)
Fixpoint loop_actions (dev : device) (n : nat) (i : nat) : list action :=
  match n with
  | O => []
  | S n' =>
      (Get ::
       match dev_Get dev i with
       | Err _ => []
       | Ok point => [GaugeSet "pm2.5" (PM25 point); GaugeSet "pm10" (PM10 point)]
       end) ++ loop_actions dev n' (S i)
  end.

(** *** The runs of [recordMetrics]

    The paths through the start-up, as the answers of the device select
    them, each with the actions it leaves and the status it ends in.
    [configured] is the cycle configuration: its actions, and whether the
    start-up goes on. *)
Inductive configured (f : flags) (dev : device) : list action -> bool -> Prop :=
| forced_set :
    forceSetCycle f = true ->
    dev_SetCycle dev (uint8 (cycle f)) = None ->
    configured f dev [SetCycle (uint8 (cycle f))] true
| forced_set_failed err :
    forceSetCycle f = true ->
    dev_SetCycle dev (uint8 (cycle f)) = Some err ->
    configured f dev [SetCycle (uint8 (cycle f))] false
| read_failed err :
    forceSetCycle f = false ->
    dev_Cycle dev = Err err ->
    configured f dev [Cycle] false
| read_same currentCycle :
    forceSetCycle f = false ->
    dev_Cycle dev = Ok currentCycle ->
    currentCycle = uint8 (cycle f) ->
    configured f dev [Cycle] true
| read_set currentCycle :
    forceSetCycle f = false ->
    dev_Cycle dev = Ok currentCycle ->
    currentCycle <> uint8 (cycle f) ->
    dev_SetCycle dev (uint8 (cycle f)) = None ->
    configured f dev [Cycle; SetCycle (uint8 (cycle f))] true
| read_set_failed currentCycle err :
    forceSetCycle f = false ->
    dev_Cycle dev = Ok currentCycle ->
    currentCycle <> uint8 (cycle f) ->
    dev_SetCycle dev (uint8 (cycle f)) = Some err ->
    configured f dev [Cycle; SetCycle (uint8 (cycle f))] false.

Definition opened (f : flags) : list action :=
  [New (portPath f); Passive (Executor.EvGo 0);
   Passive (Executor.EvResponse 0 None)].

Inductive run (f : flags) (dev : device) (n : nat) : list action -> status -> Prop :=
| open_failed err :
    dev_New dev = Some err ->
    run f dev n [New (portPath f); Exit 1] (Exited 1)
| passive_failed o :
    dev_New dev = None ->
    ~ passive_ok dev ->
    Executor.attempt_fails 0 o ->
    run f dev n
      [New (portPath f); Passive (Executor.EvGo 0); Passive o; Exit 1] (Exited 1)
| configure_failed cfg :
    dev_New dev = None ->
    passive_ok dev ->
    configured f dev cfg false ->
    run f dev n (opened f ++ cfg ++ [Exit 1]) (Exited 1)
| active_failed cfg err :
    dev_New dev = None ->
    passive_ok dev ->
    configured f dev cfg true ->
    dev_MakeActive dev = Some err ->
    run f dev n (opened f ++ cfg ++ [MakeActive; Exit 1]) (Exited 1)
| reading cfg :
    dev_New dev = None ->
    passive_ok dev ->
    configured f dev cfg true ->
    dev_MakeActive dev = None ->
    run f dev n (opened f ++ cfg ++ [MakeActive] ++ loop_actions dev n 0) Running.

(** *** Vocabulary for the runs of the controller in general *)

(** The point of the last read that succeeded among the first [n]. *)
Fixpoint last_point (dev : device) (n : nat) : option Point :=
  match n with
  | O => None
  | S n' =>
      match dev_Get dev n' with
      | Ok point => Some point
      | Err _ => last_point dev n'
      end
  end.

(** The number of reads that succeeded among the first [n]. *)
Fixpoint reads_ok (dev : device) (n : nat) : nat :=
  match n with
  | O => 0
  | S n' =>
      match dev_Get dev n' with
      | Ok _ => S (reads_ok dev n')
      | Err _ => reads_ok dev n'
      end
  end.

(** How often an action of a kind occurs. *)
Definition occurrences (kind : action -> bool) (l : list action) : nat :=
  length (filter (λ a, Is_true (kind a)) l).

Definition is_New (a : action) : bool :=
  match a with New _ => true | _ => false end.
Definition is_MakePassive (a : action) : bool :=
  match a with Passive (Executor.EvGo _) => true | _ => false end.
Definition is_Cycle (a : action) : bool :=
  match a with Cycle => true | _ => false end.
Definition is_SetCycle (a : action) : bool :=
  match a with SetCycle _ => true | _ => false end.
Definition is_MakeActive (a : action) : bool :=
  match a with MakeActive => true | _ => false end.
Definition is_Get (a : action) : bool :=
  match a with Get => true | _ => false end.
Definition is_GaugeSet (a : action) : bool :=
  match a with GaugeSet _ _ => true | _ => false end.
Definition is_Exit (a : action) : bool :=
  match a with Exit _ => true | _ => false end.

(** The first [sensor.MakePassive] call returns [nil] before the
    timeout. *)
Definition answers_in_time (s : Executor.sensor) : Prop :=
  exists d, Executor.returns_after (s 0%nat) = Some d /\
            d < Executor.mulDuration Executor.Second Executor.apiCallTimeout /\
            Executor.returns_err (s 0%nat) = None.

(** The device lets the cycle configuration through. *)
Definition configuration_ok (f : flags) (dev : device) : Prop :=
  if forceSetCycle f then dev_SetCycle dev (uint8 (cycle f)) = None
  else exists currentCycle,
         dev_Cycle dev = Ok currentCycle /\
         (currentCycle = uint8 (cycle f) \/
          dev_SetCycle dev (uint8 (cycle f)) = None).

End Controller.

Arguments Point : clear implicits.
Arguments device : clear implicits.
Arguments action : clear implicits.
Arguments process : clear implicits.

(** *** Flags and devices for the examples

    Measurements are rationals there.  [healthy c] opens, answers
    [MakePassive] with [nil] after 5 ms, reports the cycle [c], accepts
    every call, and measures 12.3 and 20.1, except for its second read,
    which fails. *)
Definition usb (c : Z) (force : bool) : flags :=
  {| portPath := "/dev/ttyUSB0"; cycle := c; forceSetCycle := force |}.

Definition healthy (currentCycle : Z) : device Q :=
  {| dev_New := None;
     dev_MakePassive := Executor.sensor_of [Executor.Call (Some 5000000) None];
     dev_Cycle := Ok currentCycle;
     dev_SetCycle := λ _, None;
     dev_MakeActive := None;
     dev_Get := λ i,
       match i with
       | 1%nat => Err "EOF"
       | _ => Ok {| PM25 := 12.3%Q; PM10 := 20.1%Q |}
       end |}.

Definition with_New {float64 : Type} (e : option string) (dev : device float64)
  : device float64 :=
  {| dev_New := e; dev_MakePassive := dev_MakePassive dev;
     dev_Cycle := dev_Cycle dev; dev_SetCycle := dev_SetCycle dev;
     dev_MakeActive := dev_MakeActive dev; dev_Get := dev_Get dev |}.

Definition with_MakePassive {float64 : Type} (s : Executor.sensor)
  (dev : device float64) : device float64 :=
  {| dev_New := dev_New dev; dev_MakePassive := s;
     dev_Cycle := dev_Cycle dev; dev_SetCycle := dev_SetCycle dev;
     dev_MakeActive := dev_MakeActive dev; dev_Get := dev_Get dev |}.

Definition with_Cycle {float64 : Type} (c : result Z) (dev : device float64)
  : device float64 :=
  {| dev_New := dev_New dev; dev_MakePassive := dev_MakePassive dev;
     dev_Cycle := c; dev_SetCycle := dev_SetCycle dev;
     dev_MakeActive := dev_MakeActive dev; dev_Get := dev_Get dev |}.

Definition with_SetCycle {float64 : Type} (e : option string) (dev : device float64)
  : device float64 :=
  {| dev_New := dev_New dev; dev_MakePassive := dev_MakePassive dev;
     dev_Cycle := dev_Cycle dev; dev_SetCycle := λ _, e;
     dev_MakeActive := dev_MakeActive dev; dev_Get := dev_Get dev |}.

Definition with_MakeActive {float64 : Type} (e : option string) (dev : device float64)
  : device float64 :=
  {| dev_New := dev_New dev; dev_MakePassive := dev_MakePassive dev;
     dev_Cycle := dev_Cycle dev; dev_SetCycle := dev_SetCycle dev;
     dev_MakeActive := e; dev_Get := dev_Get dev |}.

End Controller.

(** ** The log of the device controller

    [recordMetrics] once more, statement by statement, with the records it
    hands to [slog] between its calls.  The entries are those of
    [recordMetrics] itself, in program order; the records of
    [sensorMakePassive] and of its goroutines, and those of [main], are
    written concurrently and are not among them. *)

Module Logged.
Import GoInt Controller.

(** [slog.Level]. *)
Definition LevelDebug : Z := -4.
Definition LevelInfo : Z := 0.
Definition LevelWarn : Z := 4.
Definition LevelError : Z := 8.

Section Logged.

Context {float64 : Type}.

(** The value of an attribute of a record. *)
Inductive value :=
| ErrorValue (err : string)
| IntValue (z : Z)
| PointValue (point : Point float64).

Record record := MkRecord {
  level : Z;
  msg : string;
  attrs : list (string * value)
}.

Definition slog_Info (msg : string) (args : list (string * value)) : record :=
  {| level := LevelInfo; msg := msg; attrs := args |}.

Definition slog_Error (msg : string) (args : list (string * value)) : record :=
  {| level := LevelError; msg := msg; attrs := args |}.

(** What [recordMetrics] does, in order: the records it logs and its
    actions. *)
Inductive entry :=
| Log (r : record)
| Do (a : action float64).

Record logged := Logged_ {
  entries : list entry;
  lstate : status
}.

Definition start_logged : logged := {| entries := []; lstate := Running |}.

Definition log (r : record) (p : logged) : logged :=
  {| entries := entries p ++ [Log r]; lstate := lstate p |}.

Definition act_logged (a : action float64) (p : logged) : logged :=
  {| entries := entries p ++ [Do a]; lstate := lstate p |}.

Definition exit_logged (code : Z) (p : logged) : logged :=
  {| entries := entries p ++ [Do (Exit code)]; lstate := Exited code |}.

Definition and_then_logged (p : logged) (k : logged -> logged) : logged :=
  match lstate p with
  | Running => k p
  | _ => p
  end.

Definition open_sensor_logged (f : flags) (dev : device float64) (p : logged) : logged :=
  let p := act_logged (New (portPath f)) p in
  match dev_New dev with
  | Some err =>
      exit_logged 1
        (log (slog_Error "Cannot create sensor instance" [("error", ErrorValue err)]) p)
  | None => p
  end.

Definition make_passive_logged (dev : device float64) (p : logged) : logged :=
  match Executor.sensorMakePassive (dev_MakePassive dev) with
  | None => {| entries := entries p; lstate := Blocked |}
  | Some st =>
      let p :=
        {| entries := entries p ++ ((λ e, Do (Passive e)) <$> Executor.trace st);
           lstate := lstate p |} in
      match Executor.responseError st with
      | Some err =>
          exit_logged 1
            (log (slog_Error "Cannot switch sensor to passive mode"
                    [("error", ErrorValue err)]) p)
      | None => p
      end
  end.

Definition set_cycle_logged (f : flags) (dev : device float64) (p : logged) : logged :=
  let p := log (slog_Info "Setting sensor cycle" [("minutes", IntValue (cycle f))]) p in
  let p := act_logged (SetCycle (uint8 (cycle f))) p in
  match dev_SetCycle dev (uint8 (cycle f)) with
  | Some err =>
      exit_logged 1
        (log (slog_Error "Cannot set current cycle" [("error", ErrorValue err)]) p)
  | None => p
  end.

Definition configure_cycle_logged (f : flags) (dev : device float64) (p : logged)
  : logged :=
  if forceSetCycle f then set_cycle_logged f dev p
  else
    let p := act_logged Cycle p in
    match dev_Cycle dev with
    | Err err =>
        exit_logged 1
          (log (slog_Error "Cannot get current cycle" [("error", ErrorValue err)]) p)
    | Ok currentCycle =>
        if bool_decide (currentCycle ≠ uint8 (cycle f)) then set_cycle_logged f dev p
        else p
    end.

Definition make_active_logged (dev : device float64) (p : logged) : logged :=
  let p := log (slog_Info "Switching sensor to active mode" []) p in
  let p := act_logged MakeActive p in
  match dev_MakeActive dev with
  | Some err =>
      exit_logged 1
        (log (slog_Error "Cannot switch sensor to active mode"
                [("error", ErrorValue err)]) p)
  | None => p
  end.

Definition startup_logged (f : flags) (dev : device float64) : logged :=
  and_then_logged (and_then_logged (and_then_logged
    (open_sensor_logged f dev start_logged)
    (make_passive_logged dev)) (configure_cycle_logged f dev)) (make_active_logged dev).

Definition iteration_logged (dev : device float64) (i : nat) (p : logged) : logged :=
  let p := act_logged Get p in
  match dev_Get dev i with
  | Err err =>
      log (slog_Error "Getting sensor measurement error" [("error", ErrorValue err)]) p
  | Ok point =>
      let p := log (slog_Info "Sensor measurement results" [("data", PointValue point)]) p in
      act_logged (GaugeSet "pm10" (PM10 point)) (act_logged (GaugeSet "pm2.5" (PM25 point)) p)
  end.

Fixpoint read_loop_logged (dev : device float64) (n : nat) (i : nat) (p : logged)
  : logged :=
  match n with
  | O => p
  | S n' => read_loop_logged dev n' (S i) (iteration_logged dev i p)
  end.

(** [recordMetrics] with its log, observed until the process has exited or
    the loop has run [n] times. *)
Definition recordMetrics_logged (f : flags) (dev : device float64) (n : nat) : logged :=
  and_then_logged (startup_logged f dev) (read_loop_logged dev n 0).

(** *** Vocabulary for the statements about the log *)

(** The actions and the records among the entries, in order. *)
Definition done (l : list entry) : list (action float64) :=
  omap (λ e, match e with Do a => Some a | Log _ => None end) l.

Definition logs (l : list entry) : list record :=
  omap (λ e, match e with Log r => Some r | Do _ => None end) l.

(** [p] is [q] with its log: the same actions, the same status, and
    records at [LevelInfo] or above. *)
Definition logged_of (p : logged) (q : process float64) : Prop :=
  done (entries p) = actions q /\ lstate p = state q /\
  Forall (λ r, LevelInfo <= level r) (logs (entries p)).

(** The two records the statements below are about: the announcement of
    a [sensor.SetCycle] call, and the report of a failed [sensor.Get]. *)
Definition setting_cycle (f : flags) : record :=
  slog_Info "Setting sensor cycle" [("minutes", IntValue (cycle f))].



Definition not_set (e : entry) : Prop :=
  match e with
  | Do (SetCycle _) => False
  | _ => True
  end.

(** Every [sensor.SetCycle] call among the entries passes
    [uint8(cycle)] and comes right after its announcement. *)
Definition sets_announced (f : flags) (l : list entry) : Prop :=
  forall l1 v l2,
    l = l1 ++ Do (SetCycle v) :: l2 ->
    v = uint8 (cycle f) /\ exists l1', l1 = l1' ++ [Log (setting_cycle f)].



(** The entries of [n] iterations of the [for], from the [i]-th on. *)
Fixpoint loop_entries (dev : device float64) (n : nat) (i : nat) : list entry :=
  match n with
  | O => []
  | S n' =>
      (Do Get ::
       match dev_Get dev i with
       | Err err =>
           [Log (slog_Error "Getting sensor measurement error"
                   [("error", ErrorValue err)])]
       | Ok point =>
           [Log (slog_Info "Sensor measurement results" [("data", PointValue point)]);
            Do (GaugeSet "pm2.5" (PM25 point)); Do (GaugeSet "pm10" (PM10 point))]
       end) ++ loop_entries dev n' (S i)
  end.

End Logged.

Arguments value : clear implicits.
Arguments record : clear implicits.
Arguments entry : clear implicits.
Arguments logged : clear implicits.

End Logged.

(** ** Facts about the integer conversions *)

Module GoIntFacts.
Import GoInt.

Lemma wrap64_id (z : Z) : is_int64 z -> wrap64 z = z.
Proof.
  unfold is_int64, MinInt64, MaxInt64, wrap64. intros Hz.
  rewrite Z.mod_small by lia. lia.
Qed.

Lemma wrap64_is_int64 (z : Z) : is_int64 (wrap64 z).
Proof.
  unfold is_int64, MinInt64, MaxInt64, wrap64.
  pose proof (Z.mod_pos_bound (z + 2 ^ 63) (2 ^ 64)). lia.
Qed.

Lemma uint8_mod (z : Z) : uint8 z = z `mod` 256.
Proof. unfold uint8. change 255 with (Z.ones 8). now rewrite Z.land_ones by lia. Qed.

Lemma uint8_is_uint8 (z : Z) : is_uint8 (uint8 z).
Proof.
  rewrite uint8_mod. unfold is_uint8.
  pose proof (Z.mod_pos_bound z 256). lia.
Qed.

Lemma uint8_id (z : Z) : is_uint8 z -> uint8 z = z.
Proof. rewrite uint8_mod. unfold is_uint8. intros Hz. apply Z.mod_small. lia. Qed.

Lemma uint8_fixed (z : Z) : uint8 z = z -> is_uint8 z.
Proof. intros <-. apply uint8_is_uint8. Qed.

End GoIntFacts.

(** ** The command executor *)

Module ExecutorFacts.
Import GoInt GoIntFacts Executor.

Lemma timeout_duration : mulDuration Second apiCallTimeout = 10000000000.
Proof. reflexivity. Qed.

Lemma loop_unfold (fuel : nat) (N : Z) (s : sensor) (retry : Z) (st : state) :
  loop fuel N s retry st =
  if retry <=? N then
    match fuel with
    | O => None
    | S fuel' =>
        let st1 := attempt_prologue s retry st in
        match select (clock st1) (response st1) with
        | Response g t =>
            match g_sends g with
            | None => Some (received g t st1)
            | Some _ => loop fuel' N s (wrap64 (retry + 1)) (received g t st1)
            end
        | After t => loop fuel' N s (wrap64 (retry + 1)) (timed_out retry t st1)
        end
    end
  else Some st.
Proof. destruct fuel; reflexivity. Qed.

Lemma next_retry (k : nat) (N : Z) :
  N < MaxInt64 -> Z.of_nat k <= N -> wrap64 (Z.of_nat k + 1) = Z.of_nat (S k).
Proof.
  intros HN Hk. rewrite wrap64_id; [lia |].
  unfold is_int64, MinInt64, MaxInt64 in *. lia.
Qed.

Lemma prologue_trace (s : sensor) (k : nat) (st : state) :
  started st = k ->
  trace (attempt_prologue s (Z.of_nat k) st) =
  trace st ++ (if 0 <? Z.of_nat k then [EvSleep (mulDuration Second (Z.of_nat k))] else [])
           ++ [EvGo k].
Proof.
  intros <-. unfold attempt_prologue.
  destruct (0 <? Z.of_nat (started st)); simpl.
  - now rewrite <- app_assoc.
  - reflexivity.
Qed.

Lemma prologue_started (s : sensor) (retry : Z) (st : state) :
  started (attempt_prologue s retry st) = S (started st).
Proof. unfold attempt_prologue. now destruct (0 <? retry). Qed.

(** The run of the loop from attempt [k] on, when no [select] receives
    [nil]: one attempt for each of [k], ..., [N]. *)
Lemma loop_all_fail (N : Z) (s : sensor) (fuel : nat) :
  N < MaxInt64 ->
  forall (k : nat) (st st' : state),
    started st = k ->
    Z.of_nat k <= N + 1 ->
    loop fuel N s (Z.of_nat k) st = Some st' ->
    every_attempt_fails st' ->
    exists os : list event,
      Z.of_nat k + Z.of_nat (length os) = N + 1 /\
      (forall (i : nat) o, os !! i = Some o -> attempt_fails (Z.of_nat (k + i)) o) /\
      trace st' = trace st ++ attempts_from (mulDuration Second) k os /\
      responseError st' = default (responseError st) (reason <$> last os).
Proof.
  intros HN. induction fuel as [|fuel IH]; intros k st st' Hk Hle Hrun Hfail;
    rewrite loop_unfold in Hrun.
  - destruct (Z.leb_spec (Z.of_nat k) N); [discriminate |].
    injection Hrun as <-. exists []. simpl. rewrite app_nil_r.
    repeat split; [lia | intros i o; rewrite lookup_nil; discriminate].
  - destruct (Z.leb_spec (Z.of_nat k) N) as [Hin | Hout].
    2:{ injection Hrun as <-. exists []. simpl. rewrite app_nil_r.
        repeat split; [lia | intros i o; rewrite lookup_nil; discriminate]. }
    cbv zeta in Hrun.
    pose proof (prologue_trace s k st Hk) as Htr.
    pose proof (prologue_started s (Z.of_nat k) st) as Hst.
    set (st1 := attempt_prologue s (Z.of_nat k) st) in *.
    rewrite (next_retry k N HN Hin) in Hrun.
    destruct (select (clock st1) (response st1)) as [g t | t].
    + destruct (g_sends g) as [err|] eqn:Hg.
      * apply IH in Hrun; [| cbn [started received timed_out]; lia | lia | assumption].
        destruct Hrun as (os & Hlen & Hos & Htrace & Herr).
        exists (EvResponse (g_call g) (Some err) :: os). repeat split.
        -- simpl length. lia.
        -- intros [|i] o; simpl; intros Ho.
           ++ injection Ho as <-. right. eauto.
           ++ replace (k + S i)%nat with (S k + i)%nat by lia. now apply Hos.
        -- rewrite Htrace. cbn [trace received]. rewrite Htr, Hg. cbn [attempts_from].
           unfold attempt_events. now rewrite <- !app_assoc.
        -- rewrite Herr. cbn [responseError received]. rewrite Hg.
           rewrite last_cons. now destruct (last os).
      * injection Hrun as <-. exfalso. apply (Hfail (g_call g)).
        cbn [trace received]. rewrite Hg, elem_of_app, list_elem_of_singleton.
        now right.
    + apply IH in Hrun; [| cbn [started received timed_out]; lia | lia | assumption].
      destruct Hrun as (os & Hlen & Hos & Htrace & Herr).
      exists (EvAfter (Z.of_nat k) :: os). repeat split.
      * simpl length. lia.
      * intros [|i] o; simpl; intros Ho.
        -- injection Ho as <-. left. f_equal. lia.
        -- replace (k + S i)%nat with (S k + i)%nat by lia. now apply Hos.
      * rewrite Htrace. cbn [trace timed_out]. rewrite Htr. cbn [attempts_from].
        unfold attempt_events. now rewrite <- !app_assoc.
      * rewrite Herr. cbn [responseError timed_out].
        rewrite last_cons. now destruct (last os).
Qed.

(** Enough fuel: the loop from attempt [k] on ends within [N + 1 - k]
    iterations. *)
Lemma loop_returns (N : Z) (s : sensor) (fuel : nat) :
  N < MaxInt64 ->
  forall (k : nat) (st : state),
    (Z.to_nat (N + 1 - Z.of_nat k) <= fuel)%nat ->
    is_Some (loop fuel N s (Z.of_nat k) st).
Proof.
  intros HN. induction fuel as [|fuel IH]; intros k st Hfuel; rewrite loop_unfold.
  - destruct (Z.leb_spec (Z.of_nat k) N); [lia | eauto].
  - destruct (Z.leb_spec (Z.of_nat k) N) as [Hin | Hout]; [| eauto].
    cbv zeta. rewrite (next_retry k N HN Hin).
    destruct (select _ _) as [g t | t].
    + destruct (g_sends g); [apply IH; lia | eauto].
    + apply IH; lia.
Qed.

Lemma sleeps_app (l1 l2 : list event) : sleeps (l1 ++ l2) = sleeps l1 ++ sleeps l2.
Proof. apply omap_app. Qed.

Lemma calls_app (l1 l2 : list event) : calls (l1 ++ l2) = calls l1 ++ calls l2.
Proof. apply omap_app. Qed.

Lemma sleeps_outcome (k : Z) (o : event) : attempt_fails k o -> sleeps [o] = [].
Proof. intros [-> | (from & err & ->)]; reflexivity. Qed.

Lemma calls_outcome (k : Z) (o : event) : attempt_fails k o -> calls [o] = [].
Proof. intros [-> | (from & err & ->)]; reflexivity. Qed.

Lemma failures_tail (k : nat) (o : event) (os : list event) :
  (forall (i : nat) o', (o :: os) !! i = Some o' -> attempt_fails (Z.of_nat (k + i)) o') ->
  attempt_fails (Z.of_nat k) o /\
  (forall (i : nat) o', os !! i = Some o' -> attempt_fails (Z.of_nat (S k + i)) o').
Proof.
  intros H. split.
  - specialize (H 0%nat o eq_refl). now rewrite Nat.add_0_r in H.
  - intros i o' Ho. specialize (H (S i) o' Ho).
    now replace (k + S i)%nat with (S k + i)%nat in H by lia.
Qed.

Lemma sleeps_attempts_from (delay : Z -> Z) (os : list event) :
  forall k : nat,
    (forall (i : nat) o, os !! i = Some o -> attempt_fails (Z.of_nat (k + i)) o) ->
    sleeps (attempts_from delay k os) =
    delay <$> seqZ (Z.max 1 (Z.of_nat k)) (Z.of_nat k + Z.of_nat (length os) - Z.max 1 (Z.of_nat k)).
Proof.
  induction os as [|o os IH]; intros k Hos.
  - simpl. rewrite seqZ_nil by lia. reflexivity.
  - apply failures_tail in Hos as [Ho Hos].
    cbn [attempts_from]. rewrite sleeps_app, (IH (S k) Hos).
    unfold attempt_events. rewrite sleeps_app.
    replace (sleeps [EvGo k; o]) with (sleeps [o]) by reflexivity.
    rewrite (sleeps_outcome _ _ Ho), app_nil_r. cbn [length].
    destruct (Z.ltb_spec 0 (Z.of_nat k)) as [Hpos | Hzero].
    + rewrite (seqZ_cons (Z.max 1 (Z.of_nat k))) by lia.
      rewrite fmap_cons. simpl.
      replace (Z.max 1 (Z.of_nat k)) with (Z.of_nat k) by lia.
      f_equal. f_equal. f_equal; lia.
    + simpl. f_equal. f_equal; lia.
Qed.

Lemma calls_attempts_from (delay : Z -> Z) (os : list event) :
  forall k : nat,
    (forall (i : nat) o, os !! i = Some o -> attempt_fails (Z.of_nat (k + i)) o) ->
    calls (attempts_from delay k os) = seq k (length os).
Proof.
  induction os as [|o os IH]; intros k Hos; [reflexivity |].
  apply failures_tail in Hos as [Ho Hos].
  cbn [attempts_from]. rewrite calls_app, (IH (S k) Hos).
  unfold attempt_events. rewrite calls_app.
  replace (calls [EvGo k; o]) with (k :: calls [o]) by reflexivity.
  rewrite (calls_outcome _ _ Ho).
  destruct (0 <? Z.of_nat k); reflexivity.
Qed.

(** Up to 9223372036 seconds the product [time.Second * time.Duration(k)]
    is [k] seconds. *)
Lemma mulDuration_seconds (k : Z) :
  0 <= k <= 9223372036 -> mulDuration Second k = seconds k.
Proof.
  intros Hk. unfold mulDuration, seconds, Second. rewrite wrap64_id; [lia |].
  unfold is_int64, MinInt64, MaxInt64. lia.
Qed.

Lemma mulDuration_many_retries :
  mulDuration Second many_retries = -9223372036709551616.
Proof. reflexivity. Qed.

Lemma attempts_from_seconds (os : list event) :
  forall k : nat,
    Z.of_nat k + Z.of_nat (length os) <= 9223372037 ->
    attempts_from (mulDuration Second) k os = attempts_from seconds k os.
Proof.
  induction os as [|o os IH]; intros k Hk; [reflexivity |].
  cbn [attempts_from length] in *. unfold attempt_events.
  rewrite IH by lia.
  destruct (Z.ltb_spec 0 (Z.of_nat k)); [| reflexivity].
  rewrite mulDuration_seconds by lia. reflexivity.
Qed.

Lemma last_failure (os : list event) (k : nat) :
  os <> [] ->
  (forall (i : nat) o, os !! i = Some o -> attempt_fails (Z.of_nat (k + i)) o) ->
  is_Some (last os ≫= reason).
Proof.
  intros Hne Hos. destruct (last os) as [o|] eqn:Hlast.
  - rewrite last_lookup in Hlast. apply Hos in Hlast.
    destruct Hlast as [-> | (from & err & ->)]; simpl; eauto.
  - apply last_None in Hlast. contradiction.
Qed.

(** A sensor that never answers makes every [select] end on the timer. *)
Lemma first_sender_blocked (q : list goroutine) :
  Forall (λ g, g_sends_at g = None) q -> first_sender q = None.
Proof.
  induction 1 as [|g q Hg _ IH]; [reflexivity |].
  simpl. now rewrite Hg, IH.
Qed.

Lemma loop_never_answered (N : Z) (s : sensor) (fuel : nat) :
  (forall i, returns_after (s i) = None) ->
  forall (retry : Z) (st st' : state),
    Forall (λ g, g_sends_at g = None) (response st) ->
    loop fuel N s retry st = Some st' ->
    forall from err, EvResponse from err ∈ trace st' -> EvResponse from err ∈ trace st.
Proof.
  intros Hs. induction fuel as [|fuel IH]; intros retry st st' Hq Hrun from err Hin;
    rewrite loop_unfold in Hrun.
  - destruct (retry <=? N); [discriminate | congruence].
  - destruct (retry <=? N); [| congruence].
    cbv zeta in Hrun.
    assert (Hq1 : Forall (λ g, g_sends_at g = None)
                    (response (attempt_prologue s retry st))).
    { unfold attempt_prologue, spawn. cbn [response].
      apply Forall_app. split.
      - now destruct (0 <? retry).
      - constructor; [| constructor]. unfold go_func. cbn [g_sends_at].
        now rewrite Hs. }
    unfold select in Hrun. rewrite (first_sender_blocked _ Hq1) in Hrun.
    eapply IH in Hrun; [| exact Hq1 | exact Hin].
    cbn [trace timed_out] in Hrun. unfold attempt_prologue, spawn in Hrun.
    cbn [trace] in Hrun.
    rewrite !elem_of_app, !list_elem_of_singleton in Hrun.
    destruct Hrun as [[Hrun | Hrun] | Hrun]; [| discriminate..].
    destruct (0 <? retry); [| exact Hrun].
    cbn [trace sleep] in Hrun.
    rewrite elem_of_app, list_elem_of_singleton in Hrun.
    destruct Hrun as [Hrun | Hrun]; [exact Hrun | discriminate].
Qed.

(** A receive is served by a goroutine that is on the channel and has
    reached its send. *)
Lemma first_sender_elem (q : list goroutine) (t : Z) (g : goroutine) :
  first_sender q = Some (t, g) -> g ∈ q /\ g_sends_at g = Some t.
Proof.
  revert t g. induction q as [|h q IH]; intros t g; cbn [first_sender]; [discriminate |].
  destruct (g_sends_at h) as [th|] eqn:Hh.
  - destruct (first_sender q) as [[t' g']|].
    + destruct (th <=? t'); intros [= <- <-].
      * split; [apply list_elem_of_here | exact Hh].
      * destruct (IH _ _ eq_refl) as [Hin Hat].
        split; [now apply list_elem_of_further | exact Hat].
    + intros [= <- <-]. split; [apply list_elem_of_here | exact Hh].
  - intros Hq. destruct (IH _ _ Hq) as [Hin Hat].
    split; [now apply list_elem_of_further | exact Hat].
Qed.

Lemma select_response (now : Z) (q : list goroutine) (g : goroutine) (t : Z) :
  select now q = Response g t -> g ∈ q /\ is_Some (g_sends_at g).
Proof.
  unfold select. destruct (first_sender q) as [[t' g']|] eqn:Hq; [| discriminate].
  destruct (t' <? _); [| discriminate]. intros [= <- _].
  destruct (first_sender_elem q t' g' Hq) as [Hin Hat]. eauto.
Qed.

(** When no call ever returns [nil], no [select] receives [nil]. *)
Lemma loop_never_nil (N : Z) (s : sensor) (fuel : nat) :
  (forall i, never_nil (s i)) ->
  forall (retry : Z) (st st' : state),
    Forall (λ g, g_sends_at g = None \/ g_sends g <> None) (response st) ->
    loop fuel N s retry st = Some st' ->
    forall from, EvResponse from None ∈ trace st' -> EvResponse from None ∈ trace st.
Proof.
  intros Hs. induction fuel as [|fuel IH]; intros retry st st' Hq Hrun from Hin;
    rewrite loop_unfold in Hrun.
  - destruct (retry <=? N); [discriminate | congruence].
  - destruct (retry <=? N); [| congruence].
    cbv zeta in Hrun.
    set (st0 := if 0 <? retry then sleep (mulDuration Second retry) st else st) in *.
    assert (Hq0 : response st0 = response st) by (subst st0; now destruct (0 <? retry)).
    assert (Htr0 : forall e, e ∈ trace st0 -> (exists d, e = EvSleep d) \/ e ∈ trace st).
    { subst st0. intros e He. destruct (0 <? retry); [| now right].
      cbn [trace sleep] in He. apply elem_of_app in He as [He | He]; [now right |].
      apply list_elem_of_singleton in He. left. eauto. }
    assert (Hq1 : Forall (λ g, g_sends_at g = None \/ g_sends g <> None)
                    (response (attempt_prologue s retry st))).
    { unfold attempt_prologue. fold st0. cbn [response spawn]. rewrite Hq0.
      apply Forall_app. split; [exact Hq |]. constructor; [| constructor].
      unfold go_func. cbn [g_sends_at g_sends].
      destruct (Hs (started st0)) as [-> | [err ->]]; [now left | now right]. }
    assert (Htr1 : forall e, e ∈ trace (attempt_prologue s retry st) ->
                             (forall from', e <> EvResponse from' None) \/ e ∈ trace st).
    { unfold attempt_prologue. fold st0. cbn [trace spawn]. intros e He.
      apply elem_of_app in He as [He | He].
      - destruct (Htr0 e He) as [[d ->] | He']; [now left | now right].
      - apply list_elem_of_singleton in He as ->. now left. }
    set (st1 := attempt_prologue s retry st) in *.
    destruct (select (clock st1) (response st1)) as [g t | t] eqn:Hsel.
    + apply select_response in Hsel as [Hg [tg Hat]].
      rewrite Forall_forall in Hq1. destruct (Hq1 g Hg) as [Hnone | Hsome];
        [congruence |].
      destruct (g_sends g) as [err|] eqn:Hsends; [| contradiction].
      eapply IH in Hrun; [| | exact Hin].
      * cbn [trace received] in Hrun. rewrite Hsends in Hrun.
        apply elem_of_app in Hrun as [Hrun | Hrun].
        -- destruct (Htr1 _ Hrun) as [Hne | Hold]; [now destruct (Hne from) | exact Hold].
        -- apply list_elem_of_singleton in Hrun. discriminate.
      * cbn [response received]. unfold remove_sender. apply Forall_forall.
        intros g' Hg'. apply list_elem_of_filter in Hg' as [_ Hg']. now apply Hq1.
    + eapply IH in Hrun; [| exact Hq1 | exact Hin].
      cbn [trace timed_out] in Hrun.
      apply elem_of_app in Hrun as [Hrun | Hrun].
      * destruct (Htr1 _ Hrun) as [Hne | Hold]; [now destruct (Hne from) | exact Hold].
      * apply list_elem_of_singleton in Hrun. discriminate.
Qed.

(** The first attempt: one goroutine on the channel, raced against the
    timer. *)
Lemma first_prologue (s : sensor) :
  attempt_prologue s 0 init =
  {| clock := 0; response := [go_func s 0 0]; started := 1;
     responseError := None; trace := [EvGo 0] |}.
Proof. reflexivity. Qed.

Lemma first_select (s : sensor) :
  select 0 [go_func s 0 0] =
  match returns_after (s 0%nat) with
  | Some d =>
      if d <? mulDuration Second apiCallTimeout
      then Response (go_func s 0 0) (Z.max 0 d)
      else After (mulDuration Second apiCallTimeout)
  | None => After (mulDuration Second apiCallTimeout)
  end.
Proof.
  unfold select. cbn [first_sender]. unfold go_func at 1. cbn [g_sends_at].
  destruct (returns_after (s 0%nat)) as [d|]; cbn [fmap option_fmap option_map].
  - rewrite !Z.add_0_l. reflexivity.
  - reflexivity.
Qed.

(** With [retries = 0] the loop body runs once and the loop ends. *)
Lemma first_attempt_run (s : sensor) (fuel : nat) :
  sensorMakePassive_with (S fuel) retries s =
  Some match select 0 [go_func s 0 0] with
       | Response g t => received g t (first_attempt_of s)
       | After t => timed_out 0 t (first_attempt_of s)
       end.
Proof.
  unfold sensorMakePassive_with, retries. rewrite loop_unfold.
  change (0 <=? 0) with true. cbv zeta.
  rewrite first_prologue. fold (first_attempt_of s).
  change (clock (first_attempt_of s)) with 0.
  change (response (first_attempt_of s)) with [go_func s 0 0].
  assert (Hstop : forall st, loop fuel 0 s (wrap64 (0 + 1)) st = Some st).
  { intros st. rewrite loop_unfold. reflexivity. }
  destruct (select 0 [go_func s 0 0]) as [g t | t].
  - destruct (g_sends g); [apply Hstop | reflexivity].
  - apply Hstop.
Qed.

(** What [sensorMakePassive] hands to [recordMetrics]: [nil] after a
    [nil] received from the one call, an error after a failed attempt. *)
Lemma sensorMakePassive_cases (s : sensor) :
  exists st : state,
    sensorMakePassive s = Some st /\
    ((trace st = [EvGo 0; EvResponse 0 None] /\ responseError st = None) \/
     (exists o err, attempt_fails 0 o /\ trace st = [EvGo 0; o] /\
                    responseError st = Some err)).
Proof.
  unfold sensorMakePassive. rewrite first_attempt_run, first_select.
  unfold first_attempt_of.
  destruct (returns_after (s 0%nat)) as [d|].
  - destruct (d <? mulDuration Second apiCallTimeout).
    + eexists. split; [reflexivity |].
      cbn [trace received responseError g_call go_func app g_sends].
      destruct (returns_err (s 0%nat)) as [err|].
      * right. eexists _, _. split; [right; eauto |]. split; reflexivity.
      * left. split; reflexivity.
    + eexists. split; [reflexivity |]. right.
      eexists _, _. split; [now left |]. split; reflexivity.
  - eexists. split; [reflexivity |]. right.
    eexists _, _. split; [now left |]. split; reflexivity.
Qed.

(** *** One attempt when [retries = 0] *)

(** C2.  With [retries = 0], the constant of the program, the executor
    makes exactly one attempt, whatever the sensor does and whatever the
    bound on the iterations: it starts one call and runs one [select],
    without any sleep.  If the call answers before
    the timeout, the executor returns what it answered ([nil] or the
    error) at the instant it answered; otherwise it returns the timeout
    error when the timer fires.  No further attempt follows in either
    case. *)
Theorem single_attempt (s : sensor) (fuel : nat) :
  exists (st : state) (o : event),
    sensorMakePassive s = Some st /\
    sensorMakePassive_with (S fuel) retries s = Some st /\
    trace st = [EvGo 0; o] /\
    sleeps (trace st) = [] /\
    calls (trace st) = [0%nat] /\
    responseError st = reason o /\
    match returns_after (s 0%nat) with
    | Some d =>
        if d <? mulDuration Second apiCallTimeout
        then o = EvResponse 0 (g_sends (go_func s 0 0)) /\ clock st = Z.max 0 d
        else o = EvAfter 0 /\ clock st = mulDuration Second apiCallTimeout
    | None => o = EvAfter 0 /\ clock st = mulDuration Second apiCallTimeout
    end.
Proof.
  unfold sensorMakePassive.
  rewrite !first_attempt_run, first_select. unfold first_attempt_of.
  destruct (returns_after (s 0%nat)) as [d|].
  - destruct (d <? mulDuration Second apiCallTimeout).
    + eexists _, _. do 2 (split; [reflexivity |]). repeat split; reflexivity.
    + eexists _, _. do 2 (split; [reflexivity |]). repeat split; reflexivity.
  - eexists _, _. do 2 (split; [reflexivity |]). repeat split; reflexivity.
Qed.

Example single_attempt_success :
  sensorMakePassive (sensor_of [Call (Some 5000000) None]) =
  Some {| clock := 5000000; response := []; started := 1;
          responseError := None;
          trace := [EvGo 0; EvResponse 0 None] |}.
Proof. reflexivity. Qed.

Example single_attempt_error :
  sensorMakePassive (sensor_of [Call (Some 5000000) (Some "EOF")]) =
  Some {| clock := 5000000; response := []; started := 1;
          responseError := Some "Cannot switch sensor to passive mode: EOF";
          trace := [EvGo 0;
                    EvResponse 0 (Some "Cannot switch sensor to passive mode: EOF")] |}.
Proof. reflexivity. Qed.

Example single_attempt_timeout :
  sensorMakePassive silent =
  Some {| clock := 10000000000;
          response := [{| g_call := 0; g_sends_at := None; g_sends := None |}];
          started := 1;
          responseError := Some "Device API response timeout (0 retries)";
          trace := [EvGo 0; EvAfter 0] |}.
Proof. reflexivity. Qed.

(** *** Exhausting the retries *)

(** C3, for the numbers of retries whose back-off fits a [time.Duration]
    and for the failures the executor records.  For [0 < N <= 9223372036]
    and any sensor, the executor returns; and if the [select] of every
    attempt ends in a failure, as it does when no call ever returns [nil],
    the run is exactly [N + 1] attempts, the calls [0], ..., [N]; attempt
    [k >= 1] is preceded by a sleep of [k] seconds, so that the sleeps are
    1, 2, ..., [N] seconds in that order; and the error returned is the
    one recorded by the last attempt. *)
Theorem retries_exhausted (N : Z) (s : sensor) (fuel : nat) :
  0 < N -> N <= 9223372036 -> (Z.to_nat (N + 1) <= fuel)%nat ->
  exists st : state,
    sensorMakePassive_with fuel N s = Some st /\
    ((forall i, never_nil (s i)) -> every_attempt_fails st) /\
    (every_attempt_fails st ->
     exists os : list event,
       Z.of_nat (length os) = N + 1 /\
       (forall (i : nat) o, os !! i = Some o -> attempt_fails (Z.of_nat i) o) /\
       trace st = attempts_from seconds 0 os /\
       calls (trace st) = seq 0 (Z.to_nat (N + 1)) /\
       sleeps (trace st) = seconds <$> seqZ 1 N /\
       responseError st = last os ≫= reason /\
       is_Some (responseError st)).
Proof.
  intros Hpos Hmax Hfuel.
  assert (HN : N < MaxInt64) by (unfold MaxInt64; lia).
  destruct (loop_returns N s fuel HN 0 init) as [st Hrun].
  { change (Z.of_nat 0) with 0. now replace (N + 1 - 0) with (N + 1) by lia. }
  exists st. split; [exact Hrun |]. split.
  { intros Hs from Hin.
    apply (loop_never_nil N s fuel Hs 0 init st (Forall_nil_2 _) Hrun) in Hin.
    now apply elem_of_nil in Hin. }
  intros Hfail.
  destruct (loop_all_fail N s fuel HN 0 init st eq_refl ltac:(lia) Hrun Hfail)
    as (os & Hlen & Hos & Htrace & Herr).
  change (Z.of_nat 0) with 0 in Hlen. cbn [trace init app] in Htrace.
  exists os.
  assert (Hshape : trace st = attempts_from seconds 0 os).
  { rewrite Htrace. apply attempts_from_seconds. lia. }
  assert (Hres : responseError st = last os ≫= reason).
  { rewrite Herr. cbn [responseError init]. now destruct (last os). }
  repeat split.
  - lia.
  - exact Hos.
  - exact Hshape.
  - rewrite Hshape, (calls_attempts_from seconds os 0 Hos). f_equal. lia.
  - rewrite Hshape, (sleeps_attempts_from seconds os 0 Hos).
    change (Z.of_nat 0) with 0. f_equal. f_equal; lia.
  - exact Hres.
  - rewrite Hres. apply (last_failure os 0); [| exact Hos].
    intros ->. simpl in Hlen. lia.
Qed.

Lemma retries_exhausted_witness :
  let s := sensor_of [Call (Some 5000000) (Some "EOF"); Call None None;
                      Call (Some 7000000) (Some "checksum")] in
  exists st : state,
    sensorMakePassive_with 3 2 s = Some st /\
    every_attempt_fails st /\
    calls (trace st) = [0; 1; 2]%nat /\
    sleeps (trace st) = [1000000000; 2000000000] /\
    responseError st = Some "Cannot switch sensor to passive mode: checksum".
Proof.
  intros s.
  destruct (retries_exhausted 2 s 3) as (st & Hrun & _ & Hspec); [lia | lia | lia |].
  exists st. split; [exact Hrun |].
  vm_compute in Hrun. injection Hrun as <-.
  assert (Hfail : every_attempt_fails
            {| clock := 13012000000;
               response := [{| g_call := 1; g_sends_at := None; g_sends := None |}];
               started := 3;
               responseError := Some "Cannot switch sensor to passive mode: checksum";
               trace := [EvGo 0;
                         EvResponse 0 (Some "Cannot switch sensor to passive mode: EOF");
                         EvSleep 1000000000; EvGo 1; EvAfter 1;
                         EvSleep 2000000000; EvGo 2;
                         EvResponse 2
                           (Some "Cannot switch sensor to passive mode: checksum")] |}).
  { intros from Hin. cbn [trace] in Hin.
    repeat (apply elem_of_cons in Hin as [Hin | Hin]; [discriminate |]).
    now apply elem_of_nil in Hin. }
  split; [exact Hfail |].
  destruct (Hspec Hfail) as (os & _ & _ & _ & Hcalls & Hsleeps & _ & _).
  split; [exact Hcalls |]. split; [exact Hsleeps |]. reflexivity.
Defined.

(** Beyond that range the sleeps are others: with 9223372037 retries and a
    sensor that never answers, every attempt fails, yet the sleeps are not
    1, 2, ..., 9223372037 seconds, for
    [time.Second * time.Duration(9223372037)] overflows to a negative
    duration. *)
Lemma backoff_overflows :
  exists st : state,
    sensorMakePassive_with (Z.to_nat (many_retries + 1)) many_retries silent = Some st /\
    every_attempt_fails st /\
    -9223372036709551616 ∈ sleeps (trace st) /\
    sleeps (trace st) <> seconds <$> seqZ 1 many_retries.
Proof.
  assert (HN : many_retries < MaxInt64) by reflexivity.
  destruct (loop_returns many_retries silent (Z.to_nat (many_retries + 1)) HN 0 init)
    as [st Hrun].
  { change (Z.of_nat 0) with 0. rewrite Z.sub_0_r. reflexivity. }
  exists st. split; [exact Hrun |].
  assert (Hfail : every_attempt_fails st).
  { intros from Hin.
    apply (loop_never_answered many_retries silent _ (λ _, eq_refl) 0 init st
             (Forall_nil_2 _) Hrun) in Hin.
    now apply elem_of_nil in Hin. }
  split; [exact Hfail |].
  destruct (loop_all_fail many_retries silent _ HN 0 init st eq_refl
              ltac:(unfold many_retries; lia) Hrun Hfail)
    as (os & Hlen & Hos & Htrace & _).
  change (Z.of_nat 0) with 0 in Hlen. cbn [trace init app] in Htrace.
  assert (Hsleeps : sleeps (trace st) = mulDuration Second <$> seqZ 1 many_retries).
  { rewrite Htrace, (sleeps_attempts_from _ os 0 Hos).
    change (Z.of_nat 0) with 0. f_equal. f_equal; lia. }
  assert (Hin : -9223372036709551616 ∈ sleeps (trace st)).
  { rewrite Hsleeps, <- mulDuration_many_retries.
    apply list_elem_of_fmap_2, elem_of_seqZ. unfold many_retries. lia. }
  split; [exact Hin |].
  intros Heq. rewrite Heq in Hin.
  apply list_elem_of_fmap in Hin as (k & Hk & Hin).
  apply elem_of_seqZ in Hin. unfold seconds, Second in Hk. lia.
Qed.

(** The failures of the calls are not those the executor records.  With
    one retry, a first call that outlasts its timeout and a second call
    that returns an error, the [select] of attempt 1 receives the [nil]
    that the first call returned in the meantime: the executor has made
    its two attempts and returns [nil]. *)
Lemma late_nil_ends_retries :
  (forall i, call_fails (late_ok_then_err i)) /\
  exists st : state,
    sensorMakePassive_with 2 1 late_ok_then_err = Some st /\
    trace st = [EvGo 0; EvAfter 0; EvSleep 1000000000; EvGo 1; EvResponse 0 None] /\
    responseError st = None.
Proof.
  split.
  - intros [|[|i]].
    + left. vm_compute. reflexivity.
    + right. now exists "EOF".
    + left. exact I.
  - eexists. split; [reflexivity |]. split; reflexivity.
Qed.

(** Where the statement of the specification fails: for calls that all
    fail but one of which returns [nil] late, and for a back-off beyond
    the range of [time.Duration]. *)
Lemma retries_exhausted_limits :
  ((forall i, call_fails (late_ok_then_err i)) /\
   exists st : state,
     sensorMakePassive_with 2 1 late_ok_then_err = Some st /\
     calls (trace st) = [0; 1]%nat /\
     responseError st = None) /\
  (exists st : state,
     sensorMakePassive_with (Z.to_nat (many_retries + 1)) many_retries silent = Some st /\
     every_attempt_fails st /\
     sleeps (trace st) <> seconds <$> seqZ 1 many_retries).
Proof.
  split.
  - destruct late_nil_ends_retries as (Hfail & st & Hrun & Htrace & Herr).
    split; [exact Hfail |]. exists st. split; [exact Hrun |].
    split; [now rewrite Htrace | exact Herr].
  - destruct backoff_overflows as (st & Hrun & Hfail & _ & Hne).
    exists st. split; [exact Hrun |]. split; [exact Hfail | exact Hne].
Qed.

(** *** The call abandoned at the timeout *)

(** C1.  [retries] is 0, so that a call of the executor makes one attempt
    and a timeout that elapses is that of the only attempt.  In every run,
    whatever the sensor does: if the timer of the attempt fired, nothing
    is ever received from its goroutine.  And when the call outlasts the
    timeout, the executor returns as the timer fires, with the timeout
    error; the goroutine is left on the channel with its send; and a
    sensor whose first call takes as long, whatever that call eventually
    answers, leads to the same run and the same error. *)
Theorem abandoned_call_never_consumed (s : sensor) :
  exists st : state,
    sensorMakePassive s = Some st /\
    abandoned_never_consumed st /\
    (outlasts_timeout (s 0%nat) ->
     trace st = [EvGo 0; EvAfter 0] /\
     clock st = mulDuration Second apiCallTimeout /\
     response st = [go_func s 0 0] /\
     responseError st = Some "Device API response timeout (0 retries)" /\
     forall s' : sensor,
       returns_after (s' 0%nat) = returns_after (s 0%nat) ->
       exists st' : state,
         sensorMakePassive s' = Some st' /\
         trace st' = trace st /\
         responseError st' = responseError st).
Proof.
  destruct (sensorMakePassive_cases s)
    as (st & Hst & [[Htr Herr] | (o & err & Ho & Htr & Herr)]);
    exists st; (split; [exact Hst |]); split.
  - intros k e Hafter _. rewrite Htr in Hafter.
    repeat (apply elem_of_cons in Hafter as [Hafter | Hafter]; [discriminate |]).
    now apply elem_of_nil in Hafter.
  - intros Hlate. exfalso. revert Hst Herr Hlate.
    unfold sensorMakePassive. rewrite first_attempt_run, first_select.
    unfold outlasts_timeout, first_attempt_of.
    destruct (returns_after (s 0%nat)) as [d|].
    + destruct (Z.ltb_spec d (mulDuration Second apiCallTimeout));
        intros [= <-]; [lia | discriminate].
    + intros [= <-]. discriminate.
  - intros k e Hafter Hin. rewrite Htr in Hafter, Hin.
    destruct Ho as [-> | (from & e' & ->)].
    + repeat (apply elem_of_cons in Hin as [Hin | Hin]; [discriminate |]).
      now apply elem_of_nil in Hin.
    + repeat (apply elem_of_cons in Hafter as [Hafter | Hafter]; [discriminate |]).
      now apply elem_of_nil in Hafter.
  - intros Hlate.
    assert (Hrun : forall s' : sensor,
               returns_after (s' 0%nat) = returns_after (s 0%nat) ->
               sensorMakePassive s' =
               Some {| clock := mulDuration Second apiCallTimeout;
                       response := [go_func s' 0 0];
                       started := 1;
                       responseError := Some "Device API response timeout (0 retries)";
                       trace := [EvGo 0; EvAfter 0] |}).
    { intros s' Hsame. unfold sensorMakePassive.
      rewrite first_attempt_run, first_select, Hsame.
      unfold outlasts_timeout in Hlate. unfold first_attempt_of.
      destruct (returns_after (s 0%nat)) as [d|].
      - destruct (Z.ltb_spec d (mulDuration Second apiCallTimeout)); [lia |].
        reflexivity.
      - reflexivity. }
    rewrite (Hrun s eq_refl) in Hst. injection Hst as <-.
    cbn [trace clock response responseError].
    repeat split. intros s' Hsame. eexists. split; [apply Hrun; exact Hsame |].
    split; reflexivity.
Qed.

Lemma abandoned_call_never_consumed_witness :
  exists st : state,
    sensorMakePassive late_ok = Some st /\
    abandoned_never_consumed st /\
    trace st = [EvGo 0; EvAfter 0] /\
    responseError st = Some "Device API response timeout (0 retries)" /\
    exists st' : state,
      sensorMakePassive late_err = Some st' /\
      responseError st' = responseError st.
Proof.
  destruct (abandoned_call_never_consumed late_ok) as (st & Hrun & Hnever & Hlate).
  destruct Hlate as (Htrace & _ & _ & Herr & Hsame); [vm_compute; reflexivity |].
  exists st. split; [exact Hrun |]. split; [exact Hnever |].
  split; [exact Htrace |]. split; [exact Herr |].
  destruct (Hsame late_err) as (st' & Hrun' & _ & Herr'); [reflexivity |].
  exists st'. split; [exact Hrun' | exact Herr'].
Defined.

(** That rests on the constant: were [retries] 1, the channel made once
    before the loop would hand the late answer to the next attempt.  The
    first call returns half a second after the timeout of attempt 0.  The
    [select] of attempt 1 receives from the goroutine of attempt 0, still
    blocked on the one channel, and what that call answered is the result
    of the executor: [nil] for [late_ok], the error for [late_err], while
    the call of attempt 1 never returns in either run. *)
Lemma stale_response_consumed :
  outlasts_timeout (late_ok 0%nat) /\
  outlasts_timeout (late_err 0%nat) /\
  (forall i, returns_after (late_ok i) = returns_after (late_err i)) /\
  exists st st' : state,
    sensorMakePassive_with 2 1 late_ok = Some st /\
    sensorMakePassive_with 2 1 late_err = Some st' /\
    trace st =
      [EvGo 0; EvAfter 0; EvSleep 1000000000; EvGo 1; EvResponse 0 None] /\
    trace st' =
      [EvGo 0; EvAfter 0; EvSleep 1000000000; EvGo 1;
       EvResponse 0 (Some "Cannot switch sensor to passive mode: EOF")] /\
    ~ abandoned_never_consumed st /\
    ~ abandoned_never_consumed st' /\
    responseError st = None /\
    responseError st' = Some "Cannot switch sensor to passive mode: EOF".
Proof.
  split; [vm_compute; reflexivity |]. split; [vm_compute; reflexivity |].
  split.
  { intros [|[|i]]; reflexivity. }
  eexists _, _. split; [reflexivity |]. split; [reflexivity |].
  cbn [trace responseError].
  split; [reflexivity |]. split; [reflexivity |].
  split; [| split; [| split; reflexivity]].
  - intros H. apply (H 0%nat None); cbn [trace Z.of_nat].
    + apply list_elem_of_further, list_elem_of_here.
    + do 4 apply list_elem_of_further. apply list_elem_of_here.
  - intros H. apply (H 0%nat (Some "Cannot switch sensor to passive mode: EOF"));
      cbn [trace Z.of_nat].
    + apply list_elem_of_further, list_elem_of_here.
    + do 4 apply list_elem_of_further. apply list_elem_of_here.
Qed.

End ExecutorFacts.

(** ** The device controller *)

Module ControllerFacts.
Import GoInt GoIntFacts Controller.

#[local] Set Warnings "-clear-no-such-hyp".

Section Facts.

Context {float64 : Type}.
Implicit Types (f : flags) (dev : device float64) (p : process float64).
Implicit Types (a : action float64) (l : list (action float64)).

(** *** The read loop *)

Lemma iteration_state dev i p : state (iteration dev i p) = state p.
Proof. unfold iteration. now destruct (dev_Get dev i). Qed.

Lemma iteration_actions dev i p :
  actions (iteration dev i p) = actions p ++ loop_actions dev 1 i.
Proof.
  unfold iteration. cbn [loop_actions]. rewrite app_nil_r.
  destruct (dev_Get dev i); cbn [actions gaugeSet act]; [| reflexivity].
  now rewrite <- !app_assoc.
Qed.

Lemma read_loop_state dev n : forall i p, state (read_loop dev n i p) = state p.
Proof.
  induction n as [|n IH]; intros i p; [reflexivity |].
  cbn [read_loop]. now rewrite IH, iteration_state.
Qed.

Lemma read_loop_actions dev n :
  forall i p, actions (read_loop dev n i p) = actions p ++ loop_actions dev n i.
Proof.
  induction n as [|n IH]; intros i p.
  - cbn. now rewrite app_nil_r.
  - cbn [read_loop]. rewrite IH, iteration_actions. cbn [loop_actions].
    now rewrite app_nil_r, <- !app_assoc.
Qed.

(** The last of [n + 1] iterations comes after the first [n]. *)
Lemma read_loop_snoc dev n :
  forall i p, read_loop dev (S n) i p = iteration dev (i + n) (read_loop dev n i p).
Proof.
  induction n as [|n IH]; intros i p.
  - cbn. now rewrite Nat.add_0_r.
  - change (read_loop dev (S (S n)) i p)
      with (read_loop dev (S n) (S i) (iteration dev i p)).
    rewrite IH. cbn [read_loop]. f_equal. lia.
Qed.

Lemma recordMetrics_snoc f dev n :
  startup_succeeds f dev ->
  recordMetrics f dev (S n) = iteration dev n (recordMetrics f dev n).
Proof.
  unfold startup_succeeds, recordMetrics, and_then. intros ->.
  apply read_loop_snoc.
Qed.

Lemma recordMetrics_state f dev n :
  state (recordMetrics f dev n) = state (startup f dev).
Proof.
  unfold recordMetrics, and_then.
  destruct (state (startup f dev)) eqn:Hs; rewrite ?read_loop_state; congruence.
Qed.

(** *** The start-up, path by path *)

Lemma passive_ok_iff dev st :
  Executor.sensorMakePassive (dev_MakePassive dev) = Some st ->
  passive_ok dev <-> Executor.responseError st = None.
Proof.
  unfold passive_ok. intros ->. cbn. split; [congruence | now intros ->].
Qed.

Lemma configure_cycle_run f dev p :
  exists cfg ok,
    configured f dev cfg ok /\
    configure_cycle f dev p =
    {| actions := actions p ++ cfg ++ (if ok then [] else [Exit 1]);
       airqualityPM := airqualityPM p;
       state := if ok then state p else Exited 1 |}.
Proof.
  unfold configure_cycle, set_cycle.
  destruct (forceSetCycle f) eqn:Hforce.
  - destruct (dev_SetCycle dev (uint8 (cycle f))) as [err|] eqn:Hset.
    + eexists _, false. split; [eapply forced_set_failed; eassumption |].
      unfold exit, act. cbn. now rewrite <- app_assoc.
    + eexists _, true. split; [eapply forced_set; eassumption |].
      unfold act. cbn. reflexivity.
  - destruct (dev_Cycle dev) as [currentCycle | err] eqn:Hcur.
    + destruct (bool_decide_reflect (currentCycle ≠ uint8 (cycle f))) as [Hne | Heq].
      * destruct (dev_SetCycle dev (uint8 (cycle f))) as [err|] eqn:Hset.
        -- eexists _, false. split; [eapply read_set_failed; eassumption |].
           unfold exit, act. cbn. now rewrite <- !app_assoc.
        -- eexists _, true. split; [eapply read_set; eassumption |].
           unfold act. cbn. now rewrite <- !app_assoc.
      * eexists _, true. split.
        -- eapply read_same; [eassumption .. |].
           destruct (decide (currentCycle = uint8 (cycle f))); [assumption | contradiction].
        -- unfold act. cbn. reflexivity.
    + eexists _, false. split; [eapply read_failed; eassumption |].
      unfold exit, act. cbn. now rewrite <- app_assoc.
Qed.

(** Every run of [recordMetrics] follows one of the paths. *)
Lemma recordMetrics_run f dev n :
  run f dev n (actions (recordMetrics f dev n)) (state (recordMetrics f dev n)).
Proof.
  pose (R := fun q : process float64 => run f dev n (actions q) (state q)).
  change (R (recordMetrics f dev n)).
  unfold recordMetrics, startup, open_sensor.
  destruct (dev_New dev) as [err|] eqn:Hnew.
  { subst R. cbn. eapply open_failed; eassumption. }
  unfold and_then at 4. cbn [state act start].
  unfold make_passive.
  destruct (ExecutorFacts.sensorMakePassive_cases (dev_MakePassive dev))
    as (st & Hst & [[Htr Herr] | (o & err & Ho & Htr & Herr)]).
  2:{ rewrite Hst, Htr, Herr. subst R. cbn.
      eapply passive_failed; [assumption | | exact Ho].
      rewrite (passive_ok_iff dev st Hst), Herr. discriminate. }
  assert (Hok : passive_ok dev) by (rewrite (passive_ok_iff dev st Hst); exact Herr).
  rewrite Hst, Htr, Herr. cbn [actions act start airqualityPM state fmap list_fmap app].
  unfold and_then at 3. cbn [state].
  match goal with |- context [configure_cycle f dev ?p] =>
    destruct (configure_cycle_run f dev p) as (cfg & ok & Hcfg & ->) end.
  cbn [actions airqualityPM state].
  destruct ok.
  2:{ subst R. cbn. now apply configure_failed. }
  unfold and_then at 2. cbn [state]. unfold make_active.
  destruct (dev_MakeActive dev) as [err|] eqn:Hact.
  - subst R. cbn. rewrite app_nil_r, <- !app_assoc. cbn.
    change (New (portPath f) :: Passive (Executor.EvGo 0)
              :: Passive (Executor.EvResponse 0 None) :: cfg ++ [MakeActive; Exit 1])
      with (opened f ++ cfg ++ [MakeActive; Exit 1]).
    eapply active_failed; eassumption.
  - unfold and_then. cbn [state act actions airqualityPM]. subst R. cbv beta.
    rewrite read_loop_state, read_loop_actions. cbn [state act actions].
    rewrite app_nil_r, <- !app_assoc. cbn.
    change (New (portPath f) :: Passive (Executor.EvGo 0)
              :: Passive (Executor.EvResponse 0 None)
              :: cfg ++ MakeActive :: loop_actions dev n 0)
      with (opened f ++ cfg ++ [MakeActive] ++ loop_actions dev n 0).
    now apply reading.
Qed.

(** The start-up never touches the gauge. *)
Lemma and_then_sink p (k : process float64 -> process float64) :
  (forall q, airqualityPM (k q) = airqualityPM q) ->
  airqualityPM (and_then p k) = airqualityPM p.
Proof. intros Hk. unfold and_then. now destruct (state p). Qed.

Lemma startup_sink f dev : airqualityPM (startup f dev) = ∅.
Proof.
  unfold startup. rewrite !and_then_sink.
  - unfold open_sensor. now destruct (dev_New dev).
  - intros q. unfold make_passive.
    destruct (Executor.sensorMakePassive _) as [st|]; [| reflexivity].
    now destruct (Executor.responseError st).
  - intros q. destruct (configure_cycle_run f dev q) as (cfg & ok & _ & ->).
    reflexivity.
  - intros q. unfold make_active. now destruct (dev_MakeActive dev).
Qed.

(** *** Classifying the actions of a run *)

Lemma cons_split {A : Type} (x y : A) (xs ys zs : list A) :
  x :: xs = ys ++ y :: zs ->
  (ys = [] /\ y = x /\ zs = xs) \/ (exists ys', ys = x :: ys' /\ xs = ys' ++ y :: zs).
Proof.
  destruct ys as [|z ys]; cbn; intros Heq; injection Heq as -> ->.
  - now left.
  - right. eauto.
Qed.

Lemma configured_phase f dev cfg ok :
  configured f dev cfg ok -> Forall (λ a, phase a = 2%nat) cfg.
Proof. destruct 1; repeat constructor. Qed.

Lemma opened_phase f : Forall (λ a : action float64, (phase a <= 1)%nat) (opened f).
Proof. unfold opened. repeat constructor. Qed.

Lemma loop_actions_phase dev n :
  forall i, Forall (λ a, phase a = 4%nat) (loop_actions dev n i).
Proof.
  induction n as [|n IH]; intros i; [constructor |].
  cbn [loop_actions]. apply Forall_app. split; [| apply IH].
  destruct (dev_Get dev i); repeat constructor.
Qed.

(** Bounds on the phases of the actions of a path, segment by segment. *)
Ltac phase_bound :=
  repeat apply Forall_app_2;
  first
    [ eapply Forall_impl; [apply opened_phase |]; cbn; intros; lia
    | eapply Forall_impl; [eapply configured_phase; eassumption |]; cbn; intros; lia
    | eapply Forall_impl; [apply loop_actions_phase |]; cbn; intros; lia
    | repeat constructor; cbn; lia ].

Lemma phase_not_failed dev a : phase a = 4%nat -> ~ failed dev a.
Proof. destruct a; cbn; (discriminate || tauto). Qed.

Lemma phase_not_get l :
  Forall (λ a, phase a <> 4%nat) l -> Get ∉ l.
Proof.
  intros Hl Hin. rewrite Forall_forall in Hl. now apply (Hl Get Hin).
Qed.

Lemma opened_not_failed f dev :
  dev_New dev = None -> Forall (λ a, ~ failed dev a) (opened f).
Proof.
  intros Hnew. unfold opened. repeat constructor; cbn.
  - rewrite Hnew. now intros [? ?].
  - intros [? | (? & ? & ?)]; discriminate.
  - intros [? | (? & ? & ?)]; discriminate.
Qed.

Lemma configured_not_failed f dev cfg :
  configured f dev cfg true -> Forall (λ a, ~ failed dev a) cfg.
Proof.
  inversion 1; subst; repeat constructor; cbn;
    try (intros [? ?]; congruence).
Qed.

(** *** Failing fast *)

Lemma fails_fast_cons dev a l :
  ~ failed dev a -> fails_fast dev l -> fails_fast dev (a :: l).
Proof.
  intros Ha Hl l1 b l2 Heq Hb.
  apply cons_split in Heq as [(_ & -> & _) | (l1' & _ & Heq)]; [contradiction |].
  exact (Hl l1' b l2 Heq Hb).
Qed.

Lemma fails_fast_ok dev l : Forall (λ a, ~ failed dev a) l -> fails_fast dev l.
Proof.
  intros Hl l1 a l2 -> Ha. apply Forall_app in Hl as [_ Hl].
  apply Forall_cons in Hl as [Hl _]. contradiction.
Qed.

Lemma fails_fast_app dev l l' :
  Forall (λ a, ~ failed dev a) l -> fails_fast dev l' -> fails_fast dev (l ++ l').
Proof.
  induction 1 as [|a l Ha _ IH]; intros Hl'; [exact Hl' |].
  cbn. apply fails_fast_cons; auto.
Qed.

Lemma fails_fast_exit dev a : fails_fast dev [a; Exit 1].
Proof.
  intros l1 b l2 Heq Hb.
  apply cons_split in Heq as [(_ & _ & ->) | (l1' & _ & Heq)]; [reflexivity |].
  apply cons_split in Heq as [(_ & -> & _) | (l1'' & _ & Heq)]; [destruct Hb |].
  now destruct l1''.
Qed.

Lemma configured_fails_fast f dev cfg :
  configured f dev cfg false -> fails_fast dev (cfg ++ [Exit 1]).
Proof.
  inversion 1; subst; cbn; try apply fails_fast_exit.
  apply fails_fast_cons; [| apply fails_fast_exit].
  cbn. intros [? ?]; congruence.
Qed.

Lemma run_fails_fast f dev n l s : run f dev n l s -> fails_fast dev l.
Proof.
  destruct 1 as [err Hnew | o Hnew Hpassive Ho | cfg Hnew Hpassive Hcfg
                | cfg err Hnew Hpassive Hcfg Hact | cfg Hnew Hpassive Hcfg Hact].
  - apply fails_fast_exit.
  - apply fails_fast_cons; [cbn; rewrite Hnew; now intros [? ?] |].
    apply fails_fast_cons; [| apply fails_fast_exit].
    cbn. intros [? | (? & ? & ?)]; discriminate.
  - apply fails_fast_app; [now apply opened_not_failed |].
    now apply (configured_fails_fast f).
  - apply fails_fast_app; [now apply opened_not_failed |].
    apply fails_fast_app; [now apply (configured_not_failed f) |].
    apply fails_fast_exit.
  - apply fails_fast_ok. repeat apply Forall_app_2.
    + now apply opened_not_failed.
    + now apply (configured_not_failed f).
    + repeat constructor. cbn. rewrite Hact. now intros [? ?].
    + eapply Forall_impl; [apply loop_actions_phase |].
      intros a. apply phase_not_failed.
Qed.

(** A run ends with the status 1 and without a read, or every step of it
    went well. *)
Lemma run_outcome f dev n l s :
  run f dev n l s ->
  (s = Exited 1 /\ Get ∉ l) \/ (s = Running /\ Forall (λ a, ~ failed dev a) l).
Proof.
  destruct 1 as [err Hnew | o Hnew Hpassive Ho | cfg Hnew Hpassive Hcfg
                | cfg err Hnew Hpassive Hcfg Hact | cfg Hnew Hpassive Hcfg Hact];
    [left; split; [reflexivity | apply phase_not_get; phase_bound] .. |].
  right. split; [reflexivity |]. repeat apply Forall_app_2.
  - now apply opened_not_failed.
  - now apply (configured_not_failed f).
  - repeat constructor. cbn. rewrite Hact. now intros [? ?].
  - eapply Forall_impl; [apply loop_actions_phase |].
    intros a. apply phase_not_failed.
Qed.

(** *** Start-up failures *)

(** C7.  A start-up step that fails, be it the opening of the device, the
    passive mode (the one attempt of the executor), the read of the cycle,
    the setting of the cycle or the active mode, is followed at once by
    the exit with status 1 and by nothing else; the process has exited
    with that status, which is not 0; and no run with a failed step
    contains a read of a measurement, however long the run is observed. *)
Theorem startup_failure_exits f dev n l1 a l2 :
  actions (recordMetrics f dev n) = l1 ++ a :: l2 ->
  failed dev a ->
  exists code : Z,
    code <> 0 /\
    l2 = [Exit code] /\
    state (recordMetrics f dev n) = Exited code /\
    Get ∉ actions (recordMetrics f dev n).
Proof.
  intros Hsplit Hfailed. pose proof (recordMetrics_run f dev n) as Hrun.
  exists 1. split; [discriminate |]. split.
  - exact (run_fails_fast _ _ _ _ _ Hrun l1 a l2 Hsplit Hfailed).
  - apply run_outcome in Hrun as [[Hs Hget] | [_ Hok]]; [now split |].
    exfalso. rewrite Hsplit in Hok. apply Forall_app in Hok as [_ Hok].
    apply Forall_cons in Hok as [Hok _]. contradiction.
Qed.

(** *** The order of the steps *)

Lemma preceded_by_none (P Q : action float64 -> Prop) l :
  Forall (λ a, ~ Q a) l -> preceded_by P Q l.
Proof.
  intros Hl l1 a l2 -> Ha. apply Forall_app in Hl as [_ Hl].
  apply Forall_cons in Hl as [Hl _]. contradiction.
Qed.

Lemma preceded_by_app (P Q : action float64 -> Prop) b l l' :
  b ∈ l -> P b -> Forall (λ a, ~ Q a) l -> preceded_by P Q (l ++ l').
Proof.
  intros Hb HP Hl l1 a l2 Heq Ha. exists b. split; [| exact HP].
  apply List.app_eq_app in Heq as [m [[-> Heq] | [-> _]]].
  - destruct m as [|a' m].
    + now rewrite app_nil_r in Hb.
    + cbn in Heq. injection Heq as <- _.
      apply Forall_app in Hl as [_ Hl]. apply Forall_cons in Hl as [Hl _].
      contradiction.
  - apply elem_of_app. now left.
Qed.

Lemma phases_uniform (k : nat) l :
  Forall (λ a, phase a = k) l -> StronglySorted le (phase <$> l).
Proof.
  induction 1 as [|a l Ha Hl IH]; cbn; constructor; [exact IH |].
  apply Forall_fmap. eapply Forall_impl; [exact Hl |]. cbn. lia.
Qed.

Lemma phases_app (k : nat) l l' :
  Forall (λ a, (phase a <= k)%nat) l ->
  Forall (λ a, (k <= phase a)%nat) l' ->
  StronglySorted le (phase <$> l) ->
  StronglySorted le (phase <$> l') ->
  StronglySorted le (phase <$> (l ++ l')).
Proof.
  intros Hl Hl' Hs Hs'. rewrite fmap_app. apply StronglySorted_app_2; [| assumption ..].
  intros x y (a & -> & Ha)%list_elem_of_fmap (b & -> & Hb)%list_elem_of_fmap.
  rewrite Forall_forall in Hl, Hl'.
  specialize (Hl a Ha). specialize (Hl' b Hb). cbn in *. lia.
Qed.

Lemma opened_sorted f : StronglySorted le (phase <$> opened (float64 := float64) f).
Proof. cbn. repeat constructor. Qed.

Lemma run_sorted f dev n l s : run f dev n l s -> StronglySorted le (phase <$> l).
Proof.
  destruct 1 as [err Hnew | o Hnew Hpassive Ho | cfg Hnew Hpassive Hcfg
                | cfg err Hnew Hpassive Hcfg Hact | cfg Hnew Hpassive Hcfg Hact].
  - cbn. repeat constructor.
  - cbn. repeat constructor.
  - apply (phases_app 1); [phase_bound | phase_bound | apply opened_sorted |].
    apply (phases_app 2); [phase_bound | phase_bound | | cbn; repeat constructor].
    eapply phases_uniform, configured_phase; eassumption.
  - apply (phases_app 1); [phase_bound | phase_bound | apply opened_sorted |].
    apply (phases_app 2); [phase_bound | phase_bound | | cbn; repeat constructor].
    eapply phases_uniform, configured_phase; eassumption.
  - apply (phases_app 1); [phase_bound | phase_bound | apply opened_sorted |].
    apply (phases_app 2); [phase_bound | phase_bound | |].
    + eapply phases_uniform, configured_phase; eassumption.
    + apply (phases_app 3); [phase_bound | phase_bound | cbn; repeat constructor |].
      apply (phases_uniform 4), loop_actions_phase.
Qed.

Lemma opened_no_cycle_access f :
  Forall (λ a : action float64, ~ cycle_access a) (opened f).
Proof. unfold opened. repeat constructor; cbn; tauto. Qed.

Lemma phase_no_cycle_access a : phase a <> 2%nat -> ~ cycle_access a.
Proof. destruct a; cbn; tauto. Qed.

Lemma run_passive_first f dev n l s :
  run f dev n l s ->
  preceded_by (λ b, b = Passive (Executor.EvResponse 0 None)) cycle_access l /\
  ((exists a, a ∈ l /\ cycle_access a) -> passive_ok dev).
Proof.
  assert (Hsuccess : Passive (float64 := float64) (Executor.EvResponse 0 None)
                       ∈ opened (float64 := float64) f).
  { unfold opened. do 2 apply list_elem_of_further. apply list_elem_of_here. }
  destruct 1 as [err Hnew | o Hnew Hpassive Ho | cfg Hnew Hpassive Hcfg
                | cfg err Hnew Hpassive Hcfg Hact | cfg Hnew Hpassive Hcfg Hact].
  - assert (Hnone : Forall (λ a : action float64, ~ cycle_access a)
                      [New (portPath f); Exit 1])
      by (repeat constructor; cbn; tauto).
    split; [now apply preceded_by_none |].
    intros (a & Ha & Hc). rewrite Forall_forall in Hnone. now destruct (Hnone a Ha).
  - assert (Hnone : Forall (λ a : action float64, ~ cycle_access a)
                      [New (portPath f); Passive (Executor.EvGo 0); Passive o; Exit 1])
      by (repeat constructor; cbn; tauto).
    split; [now apply preceded_by_none |].
    intros (a & Ha & Hc). rewrite Forall_forall in Hnone. now destruct (Hnone a Ha).
  - split; [| intros _; exact Hpassive].
    eapply preceded_by_app; [exact Hsuccess | reflexivity | apply opened_no_cycle_access].
  - split; [| intros _; exact Hpassive].
    eapply preceded_by_app; [exact Hsuccess | reflexivity | apply opened_no_cycle_access].
  - split; [| intros _; exact Hpassive].
    eapply preceded_by_app; [exact Hsuccess | reflexivity | apply opened_no_cycle_access].
Qed.

Lemma run_active_first f dev n l s :
  run f dev n l s ->
  preceded_by (λ b, b = MakeActive) (λ a, a = Get) l /\
  (Get ∈ l -> dev_MakeActive dev = None).
Proof.
  intros Hrun.
  destruct (run_outcome _ _ _ _ _ Hrun) as [[_ Hget] | [Hs _]].
  - split; [| intros Hin; contradiction].
    apply preceded_by_none. apply Forall_forall. now intros a Ha ->.
  - destruct Hrun as [err Hnew | o Hnew Hpassive Ho | cfg Hnew Hpassive Hcfg
                     | cfg err Hnew Hpassive Hcfg Hact | cfg Hnew Hpassive Hcfg Hact];
      try discriminate.
    split; [| intros _; exact Hact].
    rewrite !app_assoc.
    apply (preceded_by_app _ _ MakeActive); [| reflexivity |].
    + apply elem_of_app. right. apply list_elem_of_here.
    + repeat apply Forall_app_2.
      * eapply Forall_impl; [apply opened_phase |]. intros a Ha ->. cbn in Ha. lia.
      * eapply Forall_impl; [exact (configured_phase _ _ _ _ Hcfg) |].
        intros a Ha ->. discriminate.
      * repeat constructor. discriminate.
Qed.

Lemma run_reading f dev n l s :
  run f dev n l s -> s = Running ->
  exists cfg, configured f dev cfg true /\
              l = opened f ++ cfg ++ [MakeActive] ++ loop_actions dev n 0 /\
              dev_MakeActive dev = None.
Proof. destruct 1; try discriminate. eauto. Qed.

(** C8.  In every run the actions come in the order open, passive mode,
    cycle configuration, active mode, read loop, and a run that reaches
    the loop went through each of them.  A read or a write of the
    cycle comes after the [select] that received [nil] from
    [sensor.MakePassive], and is only issued when [sensorMakePassive]
    returned [nil]; a read of a measurement comes after
    [sensor.MakeActive], and is only issued when that call returned
    [nil]. *)
Theorem mode_order f dev n :
  let l := actions (recordMetrics f dev n) in
  StronglySorted le (phase <$> l) /\
  preceded_by (λ b, b = Passive (Executor.EvResponse 0 None)) cycle_access l /\
  ((exists a, a ∈ l /\ cycle_access a) -> passive_ok dev) /\
  preceded_by (λ b, b = MakeActive) (λ a, a = Get) l /\
  (Get ∈ l -> dev_MakeActive dev = None) /\
  (state (recordMetrics f dev n) = Running ->
   exists cfg,
     cfg <> [] /\ Forall cycle_access cfg /\
     l = opened f ++ cfg ++ [MakeActive] ++ loop_actions dev n 0).
Proof.
  intros l. pose proof (recordMetrics_run f dev n) as Hrun. fold l in Hrun.
  split; [exact (run_sorted _ _ _ _ _ Hrun) |].
  destruct (run_passive_first _ _ _ _ _ Hrun) as [Hp1 Hp2].
  destruct (run_active_first _ _ _ _ _ Hrun) as [Ha1 Ha2].
  repeat (split; [assumption |]).
  intros Hs. destruct (run_reading _ _ _ _ _ Hrun Hs) as (cfg & Hcfg & Hl & _).
  exists cfg. split; [| split; [| exact Hl]].
  - inversion Hcfg; discriminate.
  - inversion Hcfg; repeat constructor.
Qed.

(** *** Configuring the cycle *)

Lemma set_cycle_calls_app l l' :
  set_cycle_calls (l ++ l') = set_cycle_calls l ++ set_cycle_calls l'.
Proof. apply omap_app. Qed.

Lemma set_cycle_calls_phase l :
  Forall (λ a, phase a <> 2%nat) l -> set_cycle_calls l = [].
Proof.
  induction 1 as [|a l Ha _ IH]; [reflexivity |].
  change (a :: l) with ([a] ++ l). rewrite set_cycle_calls_app, IH.
  destruct a; cbn in *; congruence.
Qed.

Lemma set_cycle_calls_loop dev n i : set_cycle_calls (loop_actions dev n i) = [].
Proof.
  apply set_cycle_calls_phase. eapply Forall_impl; [apply loop_actions_phase |].
  cbn. intros a ->. discriminate.
Qed.

(** The calls of [sensor.SetCycle] and the reads of the cycle of a run
    that reached the cycle configuration are those of the
    configuration. *)
Lemma run_configuration f dev n l s :
  run f dev n l s -> dev_New dev = None -> passive_ok dev ->
  exists cfg ok,
    configured f dev cfg ok /\
    set_cycle_calls l = set_cycle_calls cfg /\
    (Cycle ∈ l -> Cycle ∈ cfg).
Proof.
  assert (Hopened : forall a : action float64, a ∈ opened f -> a <> Cycle).
  { intros a Ha ->. unfold opened in Ha.
    repeat (apply elem_of_cons in Ha as [Ha | Ha]; [discriminate |]).
    now apply elem_of_nil in Ha. }
  assert (Hrest : forall l', Forall (λ a : action float64, phase a <> 2%nat) l' ->
                             forall cfg, set_cycle_calls (opened f ++ cfg ++ l')
                                         = set_cycle_calls cfg /\
                                         (Cycle ∈ opened f ++ cfg ++ l' -> Cycle ∈ cfg)).
  { intros l' Hl' cfg. split.
    - rewrite !set_cycle_calls_app, (set_cycle_calls_phase l' Hl').
      now rewrite app_nil_r.
    - rewrite !elem_of_app. intros [Hin | [Hin | Hin]]; [| exact Hin |].
      + now destruct (Hopened _ Hin).
      + rewrite Forall_forall in Hl'. now destruct (Hl' _ Hin). }
  destruct 1 as [err Hnew | o Hnew Hpassive Ho | cfg Hnew Hpassive Hcfg
                | cfg err Hnew Hpassive Hcfg Hact | cfg Hnew Hpassive Hcfg Hact];
    intros Hnew' Hok; try congruence; try contradiction.
  - exists cfg, false. split; [exact Hcfg |]. apply Hrest.
    repeat constructor; discriminate.
  - exists cfg, true. split; [exact Hcfg |]. apply Hrest.
    repeat constructor; discriminate.
  - exists cfg, true. split; [exact Hcfg |]. apply Hrest.
    apply Forall_app_2; [repeat constructor; discriminate |].
    eapply Forall_impl; [apply loop_actions_phase |]. cbn. intros a ->. discriminate.
Qed.

Lemma set_cycle_calls_unforced f dev n currentCycle :
  forceSetCycle f = false -> dev_New dev = None -> passive_ok dev ->
  dev_Cycle dev = Ok currentCycle ->
  set_cycle_calls (actions (recordMetrics f dev n)) =
  if bool_decide (currentCycle = uint8 (cycle f)) then [] else [uint8 (cycle f)].
Proof.
  intros Hforce Hnew Hok Hcur.
  destruct (run_configuration _ _ _ _ _ (recordMetrics_run f dev n) Hnew Hok)
    as (cfg & ok & Hcfg & -> & _).
  destruct Hcfg as [Hf _ | err Hf _ | err _ Hread | c _ Hread Hc
                   | c _ Hread Hc _ | c err _ Hread Hc _]; try congruence;
    replace c with currentCycle in Hc by congruence.
  - now rewrite bool_decide_eq_true_2.
  - now rewrite bool_decide_eq_false_2.
  - now rewrite bool_decide_eq_false_2.
Qed.

Lemma set_cycle_calls_forced f dev n :
  forceSetCycle f = true -> dev_New dev = None -> passive_ok dev ->
  set_cycle_calls (actions (recordMetrics f dev n)) = [uint8 (cycle f)] /\
  Cycle ∉ actions (recordMetrics f dev n).
Proof.
  intros Hforce Hnew Hok.
  destruct (run_configuration _ _ _ _ _ (recordMetrics_run f dev n) Hnew Hok)
    as (cfg & ok & Hcfg & -> & Hread).
  destruct Hcfg; try congruence; (split; [reflexivity |]);
    intros Hin%Hread; apply list_elem_of_singleton in Hin; discriminate.
Qed.

Lemma read_loop_ext dev dev' n :
  (forall i, dev_Get dev' i = dev_Get dev i) ->
  forall i p, read_loop dev' n i p = read_loop dev n i p.
Proof.
  intros Hget. induction n as [|n IH]; intros i p; [reflexivity |].
  cbn [read_loop]. rewrite IH. unfold iteration. now rewrite Hget.
Qed.

Lemma uint8_mod_256 (c : Z) : uint8 (c `mod` 256) = uint8 c.
Proof. rewrite !uint8_mod. apply Zmod_mod. Qed.

(** Only the low eight bits of [cycle] reach the program. *)
Lemma recordMetrics_mod_256 f dev n :
  recordMetrics f dev n =
  recordMetrics {| portPath := portPath f; cycle := cycle f `mod` 256;
                   forceSetCycle := forceSetCycle f |} dev n.
Proof.
  unfold recordMetrics, startup, open_sensor, configure_cycle, set_cycle.
  cbn [portPath cycle forceSetCycle]. now rewrite uint8_mod_256.
Qed.

(** With [forceSetCycle] the answer to [sensor.Cycle] is never asked
    for. *)
Lemma recordMetrics_forced f dev n (c : result Z) :
  forceSetCycle f = true ->
  recordMetrics f (with_Cycle c dev) n = recordMetrics f dev n.
Proof.
  intros Hforce. unfold recordMetrics.
  replace (startup f (with_Cycle c dev)) with (startup f dev).
  - unfold and_then. destruct (state (startup f dev)); [| reflexivity ..].
    now apply read_loop_ext.
  - unfold startup, configure_cycle. rewrite Hforce. reflexivity.
Qed.

(** C4, with the comparison the program makes.  Without
    [forceSetCycle], on a device that opens, enters passive mode and
    reports [currentCycle]: if [currentCycle] is [uint8(cycle)] there is
    no [sensor.SetCycle] call, otherwise there is exactly one, with
    [uint8(cycle)].  For a [cycle] within 0..255 that is the configured
    value itself; and a device that reports the configured value is never
    written to. *)
Theorem cycle_set_if_different f dev n (currentCycle : Z) :
  forceSetCycle f = false ->
  dev_New dev = None ->
  passive_ok dev ->
  dev_Cycle dev = Ok currentCycle ->
  let calls := set_cycle_calls (actions (recordMetrics f dev n)) in
  (currentCycle = uint8 (cycle f) -> calls = []) /\
  (currentCycle <> uint8 (cycle f) -> calls = [uint8 (cycle f)]) /\
  (is_uint8 currentCycle -> currentCycle = cycle f -> calls = []) /\
  (is_uint8 (cycle f) -> currentCycle <> cycle f -> calls = [cycle f]).
Proof.
  intros Hforce Hnew Hok Hcur calls. subst calls.
  rewrite (set_cycle_calls_unforced f dev n currentCycle Hforce Hnew Hok Hcur).
  repeat split.
  - intros Heq. now rewrite bool_decide_eq_true_2.
  - intros Hne. now rewrite bool_decide_eq_false_2.
  - intros Hrange <-. now rewrite bool_decide_eq_true_2 by (now rewrite uint8_id).
  - intros Hrange Hne. rewrite (uint8_id _ Hrange). now rewrite bool_decide_eq_false_2.
Qed.

(** C9, with the value the program writes.  With [forceSetCycle], on a
    device that opens and enters passive mode, there is exactly one
    [sensor.SetCycle] call, with [uint8(cycle)], which is the configured
    value when that is within 0..255; [sensor.Cycle] is not called, and
    whatever it would answer the run is the same. *)
Theorem forced_cycle_set_once f dev n :
  forceSetCycle f = true ->
  dev_New dev = None ->
  passive_ok dev ->
  set_cycle_calls (actions (recordMetrics f dev n)) = [uint8 (cycle f)] /\
  (is_uint8 (cycle f) -> set_cycle_calls (actions (recordMetrics f dev n)) = [cycle f]) /\
  (Cycle ∉ actions (recordMetrics f dev n)) /\
  (forall c : result Z, recordMetrics f (with_Cycle c dev) n = recordMetrics f dev n).
Proof.
  intros Hforce Hnew Hok.
  destruct (set_cycle_calls_forced f dev n Hforce Hnew Hok) as [Hcalls Hread].
  repeat split.
  - exact Hcalls.
  - intros Hrange. now rewrite Hcalls, uint8_id.
  - exact Hread.
  - intros c. now apply recordMetrics_forced.
Qed.

(** C10.  [cycle] is converted to [uint8] wherever it is used and nowhere
    checked: [uint8(cycle)] is [cycle mod 256], the run for [cycle] is the
    run for [cycle mod 256], the value written under [forceSetCycle] is
    [cycle mod 256], and without it the cycle of the device is compared
    with [cycle mod 256], which is also the value written when they
    differ. *)
Theorem configured_cycle_truncated f dev n :
  dev_New dev = None ->
  passive_ok dev ->
  let calls := set_cycle_calls (actions (recordMetrics f dev n)) in
  uint8 (cycle f) = cycle f `mod` 256 /\
  recordMetrics f dev n =
    recordMetrics {| portPath := portPath f; cycle := cycle f `mod` 256;
                     forceSetCycle := forceSetCycle f |} dev n /\
  (forceSetCycle f = true -> calls = [cycle f `mod` 256]) /\
  (forceSetCycle f = false ->
   forall currentCycle, dev_Cycle dev = Ok currentCycle ->
     (currentCycle = cycle f `mod` 256 -> calls = []) /\
     (currentCycle <> cycle f `mod` 256 -> calls = [cycle f `mod` 256])).
Proof.
  intros Hnew Hok calls. subst calls. rewrite <- uint8_mod.
  split; [reflexivity |]. split; [rewrite uint8_mod; apply recordMetrics_mod_256 |].
  split.
  - intros Hforce. now apply set_cycle_calls_forced.
  - intros Hforce currentCycle Hcur.
    rewrite (set_cycle_calls_unforced f dev n currentCycle Hforce Hnew Hok Hcur).
    split.
    + intros Heq. now rewrite bool_decide_eq_true_2.
    + intros Hne. now rewrite bool_decide_eq_false_2.
Qed.

(** *** The measurement loop *)

Lemma startup_succeeds_active f dev :
  startup_succeeds f dev ->
  dev_MakeActive dev = None /\ MakeActive ∈ actions (startup f dev).
Proof.
  intros Hs. pose proof (recordMetrics_run f dev 0) as Hrun.
  rewrite recordMetrics_state, Hs in Hrun.
  assert (Hl : actions (recordMetrics f dev 0) = actions (startup f dev)).
  { unfold recordMetrics, and_then. now rewrite Hs. }
  rewrite Hl in Hrun.
  destruct (run_reading _ _ _ _ _ Hrun eq_refl) as (cfg & _ & -> & Hact).
  split; [exact Hact |].
  rewrite !elem_of_app. right. right. left. apply list_elem_of_here.
Qed.

Lemma iteration_dom dev i p :
  dom (airqualityPM (iteration dev i p)) ⊆ {["pm2.5"; "pm10"]} ∪ dom (airqualityPM p).
Proof.
  unfold iteration. destruct (dev_Get dev i) as [point | err]; cbn.
  - rewrite !dom_insert. set_solver.
  - set_solver.
Qed.

Lemma read_loop_dom dev n :
  forall i p,
    dom (airqualityPM (read_loop dev n i p)) ⊆ {["pm2.5"; "pm10"]} ∪ dom (airqualityPM p).
Proof.
  induction n as [|n IH]; intros i p; cbn [read_loop]; [set_solver |].
  etrans; [apply IH |]. pose proof (iteration_dom dev i p). set_solver.
Qed.

Lemma recordMetrics_dom f dev n :
  dom (airqualityPM (recordMetrics f dev n)) ⊆ {["pm2.5"; "pm10"]}.
Proof.
  unfold recordMetrics, and_then.
  destruct (state (startup f dev)); rewrite ?startup_sink; [| set_solver ..].
  etrans; [apply read_loop_dom |]. rewrite startup_sink. set_solver.
Qed.

(** C5.  Once the start-up has gone through, which it does only after
    [sensor.MakeActive] has returned [nil], an iteration of the loop whose
    [sensor.Get] returns a point leaves the gauge of the iteration before
    with the value of [PM25] under ["pm2.5"] and that of [PM10] under
    ["pm10"], whatever was there, and with nothing under any other
    label; the process keeps running. *)
Theorem successful_read_published f dev n (point : Point float64) :
  startup_succeeds f dev ->
  dev_Get dev n = Ok point ->
  let before := recordMetrics f dev n in
  let after := recordMetrics f dev (S n) in
  dev_MakeActive dev = None /\
  airqualityPM after =
    <["pm10" := PM10 point]> (<["pm2.5" := PM25 point]> (airqualityPM before)) /\
  airqualityPM after !! "pm2.5" = Some (PM25 point) /\
  airqualityPM after !! "pm10" = Some (PM10 point) /\
  dom (airqualityPM after) = {["pm2.5"; "pm10"]} /\
  state after = Running.
Proof.
  intros Hs Hget before after.
  assert (Hafter : airqualityPM after =
            <["pm10" := PM10 point]> (<["pm2.5" := PM25 point]> (airqualityPM before))).
  { subst after before. rewrite (recordMetrics_snoc f dev n Hs).
    unfold iteration. now rewrite Hget. }
  split; [exact (proj1 (startup_succeeds_active f dev Hs)) |].
  split; [exact Hafter |]. rewrite Hafter.
  split; [| split; [| split]].
  - rewrite lookup_insert_ne by discriminate. apply lookup_insert_eq.
  - apply lookup_insert_eq.
  - rewrite !dom_insert_L. pose proof (recordMetrics_dom f dev n). set_solver.
  - subst after. now rewrite recordMetrics_state.
Qed.

(** C6.  Once the start-up has gone through, reads that fail, however
    many in a row, leave the gauge as it was and leave nothing but one
    [sensor.Get] call each: no exit, no sleep, no other call; the process
    keeps running and its next action is the next [sensor.Get]. *)
Theorem failed_reads_skipped f dev n k :
  startup_succeeds f dev ->
  (forall j, (n <= j < n + k)%nat -> exists err, dev_Get dev j = Err err) ->
  let before := recordMetrics f dev n in
  let after := recordMetrics f dev (n + k) in
  airqualityPM after = airqualityPM before /\
  actions after = actions before ++ replicate k Get /\
  state after = Running /\
  exists rest, actions (recordMetrics f dev (S (n + k))) = actions after ++ Get :: rest.
Proof.
  intros Hs Herr before after. subst before after.
  assert (Hrun : airqualityPM (recordMetrics f dev (n + k))
                 = airqualityPM (recordMetrics f dev n) /\
                 actions (recordMetrics f dev (n + k))
                 = actions (recordMetrics f dev n) ++ replicate k Get).
  { induction k as [|k IH].
    - rewrite Nat.add_0_r, app_nil_r. now split.
    - destruct IH as [IHsink IHactions]; [intros j Hj; apply Herr; lia |].
      destruct (Herr (n + k)%nat) as [err Hget]; [lia |].
      rewrite Nat.add_succ_r, (recordMetrics_snoc f dev (n + k) Hs).
      unfold iteration. rewrite Hget. cbn [airqualityPM actions act].
      rewrite IHsink, IHactions, <- app_assoc.
      split; [reflexivity |]. f_equal.
      change (replicate k Get ++ [Get]) with (replicate k (@Get float64) ++ replicate 1 Get).
      rewrite <- replicate_add. f_equal. lia. }
  destruct Hrun as [Hsink Hactions].
  split; [exact Hsink |]. split; [exact Hactions |].
  split; [now rewrite recordMetrics_state |].
  rewrite (recordMetrics_snoc f dev (n + k) Hs), iteration_actions.
  cbn [loop_actions]. rewrite app_nil_r. eexists. reflexivity.
Qed.

End Facts.

Lemma startup_failure_exits_witness :
  let dev := with_MakeActive (Some "write: input/output error") (healthy 5) in
  actions (recordMetrics (usb 5 false) dev 3) =
    [New "/dev/ttyUSB0"; Passive (Executor.EvGo 0);
     Passive (Executor.EvResponse 0 None); Cycle; MakeActive; Exit 1] /\
  state (recordMetrics (usb 5 false) dev 3) = Exited 1 /\
  Get ∉ actions (recordMetrics (usb 5 false) dev 3).
Proof.
  intros dev. split; [reflexivity |].
  destruct (startup_failure_exits (usb 5 false) dev 3
              [New "/dev/ttyUSB0"; Passive (Executor.EvGo 0);
               Passive (Executor.EvResponse 0 None); Cycle]
              MakeActive [Exit 1]) as (code & _ & Hexit & Hstate & Hget).
  - reflexivity.
  - cbn. eauto.
  - injection Hexit as <-. split; [exact Hstate | exact Hget].
Defined.

(** The five failures, one device each. *)
Example open_fails :
  let p := recordMetrics (usb 5 true)
             (with_New (Some "open /dev/ttyUSB0: no such file or directory") (healthy 5)) 3 in
  actions p = [New "/dev/ttyUSB0"; Exit 1] /\ state p = Exited 1.
Proof. split; reflexivity. Qed.

Example passive_times_out :
  let p := recordMetrics (usb 5 true) (with_MakePassive Executor.silent (healthy 5)) 3 in
  actions p = [New "/dev/ttyUSB0"; Passive (Executor.EvGo 0);
               Passive (Executor.EvAfter 0); Exit 1] /\
  state p = Exited 1.
Proof. split; reflexivity. Qed.

Example cycle_read_fails :
  let p := recordMetrics (usb 5 false) (with_Cycle (Err "EOF") (healthy 5)) 3 in
  actions p = [New "/dev/ttyUSB0"; Passive (Executor.EvGo 0);
               Passive (Executor.EvResponse 0 None); Cycle; Exit 1] /\
  state p = Exited 1.
Proof. split; reflexivity. Qed.

Example cycle_set_fails :
  let p := recordMetrics (usb 5 false) (with_SetCycle (Some "EOF") (healthy 3)) 3 in
  actions p = [New "/dev/ttyUSB0"; Passive (Executor.EvGo 0);
               Passive (Executor.EvResponse 0 None); Cycle; SetCycle 5; Exit 1] /\
  state p = Exited 1.
Proof. split; reflexivity. Qed.

Example active_fails :
  let p := recordMetrics (usb 5 true) (with_MakeActive (Some "EOF") (healthy 5)) 3 in
  actions p = [New "/dev/ttyUSB0"; Passive (Executor.EvGo 0);
               Passive (Executor.EvResponse 0 None); SetCycle 5; MakeActive; Exit 1] /\
  state p = Exited 1.
Proof. split; reflexivity. Qed.

Lemma cycle_set_if_different_witness :
  set_cycle_calls (actions (recordMetrics (usb 5 false) (healthy 5) 3)) = [] /\
  set_cycle_calls (actions (recordMetrics (usb 5 false) (healthy 3) 3)) = [5].
Proof.
  destruct (cycle_set_if_different (usb 5 false) (healthy 5) 3 5)
    as (Hsame & _); [reflexivity .. |].
  destruct (cycle_set_if_different (usb 5 false) (healthy 3) 3 3)
    as (_ & Hdiff & _); [reflexivity .. |].
  split; [apply Hsame; reflexivity | apply Hdiff; discriminate].
Defined.

(** For a cycle beyond 255 the comparison is not with the configured
    value.  The configured cycle is 261.  A device that reports the cycle 5, which differs from
    261, is not written to; and a device that reports 6 is written to, but
    with 5. *)
Lemma cycle_261_compared_as_5 :
  forceSetCycle (usb 261 false) = false /\
  dev_New (healthy 5) = None /\ passive_ok (healthy 5) /\
  dev_Cycle (healthy 5) = Ok 5 /\ 5 <> cycle (usb 261 false) /\
  set_cycle_calls (actions (recordMetrics (usb 261 false) (healthy 5) 3)) = [] /\
  dev_New (healthy 6) = None /\ passive_ok (healthy 6) /\
  dev_Cycle (healthy 6) = Ok 6 /\ 6 <> cycle (usb 261 false) /\
  set_cycle_calls (actions (recordMetrics (usb 261 false) (healthy 6) 3)) = [5] /\
  [5] <> [cycle (usb 261 false)].
Proof. repeat split; try reflexivity; discriminate. Qed.

Lemma forced_cycle_set_once_witness :
  set_cycle_calls (actions (recordMetrics (usb 5 true) (healthy 9) 3)) = [5] /\
  Cycle ∉ actions (recordMetrics (usb 5 true) (healthy 9) 3).
Proof.
  destruct (forced_cycle_set_once (usb 5 true) (healthy 9) 3)
    as (_ & Hcalls & Hread & _); [reflexivity .. |].
  split; [apply Hcalls; unfold is_uint8; cbn; lia | exact Hread].
Defined.

(** For a cycle beyond 255 the value written is not the configured one:
    with the configured cycle 261, the one call is [SetCycle(5)]. *)
Lemma forced_cycle_261_sets_5 :
  forceSetCycle (usb 261 true) = true /\
  dev_New (healthy 9) = None /\ passive_ok (healthy 9) /\
  set_cycle_calls (actions (recordMetrics (usb 261 true) (healthy 9) 3)) = [5] /\
  [5] <> [cycle (usb 261 true)].
Proof. repeat split; try reflexivity; discriminate. Qed.

Lemma configured_cycle_truncated_witness :
  uint8 261 = 5 /\
  recordMetrics (usb 261 false) (healthy 5) 3 = recordMetrics (usb 5 false) (healthy 5) 3 /\
  set_cycle_calls (actions (recordMetrics (usb 261 false) (healthy 5) 3)) = [] /\
  set_cycle_calls (actions (recordMetrics (usb 261 false) (healthy 6) 3)) = [5] /\
  set_cycle_calls (actions (recordMetrics (usb (-1) true) (healthy 6) 3)) = [255].
Proof.
  destruct (configured_cycle_truncated (usb 261 false) (healthy 5) 3)
    as (Hconv & Hrun & _ & Hsame); [reflexivity .. |].
  destruct (configured_cycle_truncated (usb 261 false) (healthy 6) 3)
    as (_ & _ & _ & Hdiff); [reflexivity .. |].
  destruct (configured_cycle_truncated (usb (-1) true) (healthy 6) 3)
    as (_ & _ & Hforced & _); [reflexivity .. |].
  split; [exact Hconv |]. split; [exact Hrun |]. split; [| split].
  - apply (Hsame eq_refl 5); reflexivity.
  - apply (Hdiff eq_refl 6); [reflexivity | discriminate].
  - apply Hforced. reflexivity.
Defined.

Lemma successful_read_published_witness :
  let p := recordMetrics (usb 5 false) (healthy 5) 3 in
  airqualityPM p !! "pm2.5" = Some 12.3%Q /\
  airqualityPM p !! "pm10" = Some 20.1%Q /\
  state p = Running.
Proof.
  destruct (successful_read_published (usb 5 false) (healthy 5) 2
              {| PM25 := 12.3%Q; PM10 := 20.1%Q |})
    as (_ & _ & H25 & H10 & _ & Hstate); [reflexivity .. |].
  split; [exact H25 |]. split; [exact H10 | exact Hstate].
Defined.

Lemma failed_reads_skipped_witness :
  airqualityPM (recordMetrics (usb 5 false) (healthy 5) 2)
  = airqualityPM (recordMetrics (usb 5 false) (healthy 5) 1) /\
  actions (recordMetrics (usb 5 false) (healthy 5) 2)
  = actions (recordMetrics (usb 5 false) (healthy 5) 1) ++ [Get] /\
  state (recordMetrics (usb 5 false) (healthy 5) 2) = Running.
Proof.
  destruct (failed_reads_skipped (usb 5 false) (healthy 5) 1 1)
    as (Hsink & Hactions & Hstate & _).
  - reflexivity.
  - intros j Hj. assert (j = 1%nat) as -> by lia. now exists "EOF".
  - split; [exact Hsink |]. split; [exact Hactions | exact Hstate].
Defined.

(** The scenario of the specification: the device opens, passive mode
    succeeds, the cycle read is 5 and so is the configured one, no
    [sensor.SetCycle] call is made, active mode succeeds, the first read
    returns 12.3 and 20.1, and the gauge shows them. *)
Example end_to_end :
  let p := recordMetrics (usb 5 false) (healthy 5) 1 in
  actions p =
    [New "/dev/ttyUSB0"; Passive (Executor.EvGo 0);
     Passive (Executor.EvResponse 0 None); Cycle; MakeActive; Get;
     GaugeSet "pm2.5" 12.3%Q; GaugeSet "pm10" 20.1%Q] /\
  airqualityPM p = {[ "pm2.5" := 12.3%Q; "pm10" := 20.1%Q ]} /\
  state p = Running.
Proof. repeat split; reflexivity. Qed.

End ControllerFacts.

(** ** The command executor, for any number of retries *)

Module ExecutorRuns.
Import GoInt GoIntFacts Executor ExecutorFacts.

(** The run of the loop from attempt [k] on: the attempts follow one
    another until a [select] receives [nil] or the retries are used up. *)
Lemma loop_shape (N : Z) (s : sensor) (fuel : nat) :
  N < MaxInt64 ->
  forall (k : nat) (st st' : state),
    started st = k ->
    Z.of_nat k <= N + 1 ->
    loop fuel N s (Z.of_nat k) st = Some st' ->
    exists os : list event,
      trace st' = trace st ++ attempts_from (mulDuration Second) k os /\
      Z.of_nat k + Z.of_nat (length os) <= N + 1 /\
      (Z.of_nat k <= N -> os <> []) /\
      (forall (i : nat) o, os !! i = Some o -> (S i < length os)%nat ->
                           attempt_fails (Z.of_nat (k + i)) o) /\
      (forall o, last os = Some o ->
                 attempt_succeeds o \/
                 (attempt_fails N o /\ Z.of_nat k + Z.of_nat (length os) = N + 1)) /\
      responseError st' = default (responseError st) (reason <$> last os) /\
      started st' = (k + length os)%nat.
Proof.
  intros HN. induction fuel as [|fuel IH]; intros k st st' Hk Hle Hrun;
    rewrite loop_unfold in Hrun.
  - destruct (Z.leb_spec (Z.of_nat k) N); [discriminate |].
    injection Hrun as <-. exists []. cbn. rewrite app_nil_r.
    repeat split; try lia; discriminate.
  - destruct (Z.leb_spec (Z.of_nat k) N) as [Hin | Hout].
    2:{ injection Hrun as <-. exists []. cbn. rewrite app_nil_r.
        repeat split; try lia; discriminate. }
    cbv zeta in Hrun.
    pose proof (prologue_trace s k st Hk) as Htr.
    pose proof (prologue_started s (Z.of_nat k) st) as Hst.
    set (st1 := attempt_prologue s (Z.of_nat k) st) in *.
    rewrite (next_retry k N HN Hin) in Hrun.
    assert (Hnext : forall o st2,
               attempt_fails (Z.of_nat k) o ->
               trace st2 = trace st1 ++ [o] ->
               responseError st2 = reason o ->
               started st2 = S k ->
               loop fuel N s (Z.of_nat (S k)) st2 = Some st' ->
               exists os : list event,
                 trace st' = trace st ++ attempts_from (mulDuration Second) k os /\
                 Z.of_nat k + Z.of_nat (length os) <= N + 1 /\
                 (Z.of_nat k <= N -> os <> []) /\
                 (forall (i : nat) o, os !! i = Some o -> (S i < length os)%nat ->
                                      attempt_fails (Z.of_nat (k + i)) o) /\
                 (forall o, last os = Some o ->
                            attempt_succeeds o \/
                            (attempt_fails N o /\
                             Z.of_nat k + Z.of_nat (length os) = N + 1)) /\
                 responseError st' = default (responseError st) (reason <$> last os) /\
                 started st' = (k + length os)%nat).
    { intros o st2 Ho Htr2 Herr2 Hst2 Hrun2.
      apply IH in Hrun2; [| exact Hst2 | lia].
      destruct Hrun2 as (os & Htrace & Hlen & Hne & Hinit & Hlast & Herr & Hstarted).
      exists (o :: os). cbn [length]. repeat split.
      - rewrite Htrace, Htr2, Htr. cbn [attempts_from]. unfold attempt_events.
        now rewrite <- !app_assoc.
      - lia.
      - discriminate.
      - intros [|i] o' Ho' Hi; cbn in Ho'.
        + injection Ho' as <-. now rewrite Nat.add_0_r.
        + replace (k + S i)%nat with (S k + i)%nat by lia. apply Hinit; [exact Ho' | lia].
      - intros o' Hlast'. rewrite last_cons in Hlast'.
        destruct (last os) as [o''|] eqn:Hos.
        + injection Hlast' as <-. destruct (Hlast o'' eq_refl) as [Hs | [Hf Hn]];
            [now left | right; split; [exact Hf | lia]].
        + injection Hlast' as <-. apply last_None in Hos. subst os. right.
          cbn [length] in *.
          assert (Z.of_nat k = N) as <-.
          { destruct (Z.eq_dec (Z.of_nat k) N) as [Heq | Hneq]; [exact Heq |].
            exfalso. apply Hne; [lia | reflexivity]. }
          split; [exact Ho | lia].
      - rewrite Herr, Herr2, last_cons. now destruct (last os).
      - lia. }
    destruct (select (clock st1) (response st1)) as [g t | t].
    + destruct (g_sends g) as [err|] eqn:Hg.
      * apply (Hnext (EvResponse (g_call g) (Some err))) in Hrun; [exact Hrun | ..].
        -- right. eauto.
        -- cbn [trace received]. now rewrite Hg.
        -- cbn [responseError received reason]. exact Hg.
        -- cbn [started received]. lia.
      * injection Hrun as <-. exists [EvResponse (g_call g) None].
        cbn [length]. repeat split.
        -- cbn [trace received attempts_from]. rewrite Htr, Hg. unfold attempt_events.
           now rewrite app_nil_r, <- !app_assoc.
        -- lia.
        -- discriminate.
        -- intros [|i] o Ho Hi; cbn in *; lia.
        -- intros o [= <-]. left. now exists (g_call g).
        -- cbn [responseError received last fmap option_fmap option_map default reason].
           exact Hg.
        -- cbn [started received]. lia.
    + apply (Hnext (EvAfter (Z.of_nat k))) in Hrun; [exact Hrun | ..].
      * now left.
      * reflexivity.
      * reflexivity.
      * cbn [started timed_out]. lia.
Qed.

Lemma calls_select_outcome (o : event) :
  attempt_succeeds o \/ (exists k, attempt_fails k o) -> calls [o] = [].
Proof. intros [[from ->] | [k [-> | (from & err & ->)]]]; reflexivity. Qed.

Lemma calls_attempts (delay : Z -> Z) (os : list event) :
  forall k : nat,
    Forall (λ o, attempt_succeeds o \/ (exists j, attempt_fails j o)) os ->
    calls (attempts_from delay k os) = seq k (length os).
Proof.
  induction os as [|o os IH]; intros k Hos; [reflexivity |].
  apply Forall_cons in Hos as [Ho Hos].
  cbn [attempts_from]. rewrite calls_app, (IH (S k) Hos).
  unfold attempt_events. rewrite calls_app.
  replace (calls [EvGo k; o]) with (k :: calls [o]) by reflexivity.
  rewrite (calls_select_outcome _ Ho).
  destruct (0 <? Z.of_nat k); reflexivity.
Qed.

(** X1.  For [0 <= N < 2^63 - 1] retries and any sensor the executor
    returns after at least one and at most [N + 1] attempts, the calls
    [0], [1], ... in that order, each attempt [k >= 1] after a sleep of
    [time.Second * time.Duration(k)].  Every attempt but the last has
    failed.  Either the last [select] received [nil] and the executor
    returns [nil], or it failed too, the attempts are [N + 1] and the
    executor returns the error of that last attempt.  So a run of fewer
    than [N + 1] attempts returns [nil]. *)
Theorem stops_at_first_success (N : Z) (s : sensor) (fuel : nat) :
  0 <= N -> N < MaxInt64 -> (Z.to_nat (N + 1) <= fuel)%nat ->
  exists (st : state) (os : list event) (o : event),
    sensorMakePassive_with fuel N s = Some st /\
    trace st = attempts_from (mulDuration Second) 0 os /\
    calls (trace st) = seq 0 (length os) /\
    started st = length os /\
    1 <= Z.of_nat (length os) <= N + 1 /\
    (forall (i : nat) o', os !! i = Some o' -> (S i < length os)%nat ->
                          attempt_fails (Z.of_nat i) o') /\
    last os = Some o /\
    ((attempt_succeeds o /\ responseError st = None) \/
     (attempt_fails N o /\ Z.of_nat (length os) = N + 1 /\
      responseError st = reason o /\ is_Some (responseError st))) /\
    (Z.of_nat (length os) < N + 1 -> responseError st = None).
Proof.
  intros Hpos HN Hfuel.
  destruct (loop_returns N s fuel HN 0 init) as [st Hrun].
  { change (Z.of_nat 0) with 0. now replace (N + 1 - 0) with (N + 1) by lia. }
  destruct (loop_shape N s fuel HN 0 init st eq_refl ltac:(lia) Hrun)
    as (os & Htrace & Hlen & Hne & Hinit & Hlast & Herr & Hstarted).
  change (Z.of_nat 0) with 0 in *. cbn [trace init app responseError] in *.
  specialize (Hne Hpos).
  destruct (last os) as [o|] eqn:Ho; [| now apply last_None in Ho].
  cbn in Herr.
  assert (Hall : Forall (λ o', attempt_succeeds o' \/ (exists j, attempt_fails j o')) os).
  { apply Forall_lookup. intros i o' Hi.
    destruct (decide (S i < length os)%nat) as [Hlt | Hge].
    - right. eexists. exact (Hinit i o' Hi Hlt).
    - assert (o' = o) as ->.
      { rewrite last_lookup in Ho. apply lookup_lt_Some in Hi as Hi'.
        replace (Nat.pred (length os)) with i in Ho by lia. congruence. }
      destruct (Hlast o eq_refl) as [Hs | [Hf _]]; [now left | right; eauto]. }
  assert (Hresult : (attempt_succeeds o /\ responseError st = None) \/
                    (attempt_fails N o /\ Z.of_nat (length os) = N + 1 /\
                     responseError st = reason o /\ is_Some (responseError st))).
  { destruct (Hlast o eq_refl) as [[from ->] | [Hf Hn]].
    - left. split; [now exists from | exact Herr].
    - right. split; [exact Hf |]. split; [lia |]. split; [exact Herr |].
      rewrite Herr. destruct Hf as [-> | (from & err & ->)]; cbn; eauto. }
  exists st, os, o. split; [exact Hrun |]. split; [exact Htrace |].
  split; [rewrite Htrace; now apply calls_attempts |]. split; [exact Hstarted |].
  split; [destruct os; [contradiction | cbn [length] in *; lia] |].
  split; [exact Hinit |]. split; [exact Ho |]. split; [exact Hresult |].
  intros Hfew. destruct Hresult as [[_ Hnil] | (_ & Hn & _)]; [exact Hnil | lia].
Qed.

(** The clock at a [select]: the receive comes before the timeout has
    passed, the timer when it has. *)
Lemma select_clock (now : Z) (q : list goroutine) :
  match select now q with
  | Response _ t => now <= t < now + mulDuration Second apiCallTimeout
  | After t => t = now + mulDuration Second apiCallTimeout
  end.
Proof.
  unfold select. change (mulDuration Second apiCallTimeout) with 10000000000.
  destruct (first_sender q) as [[t g]|]; [| reflexivity].
  destruct (Z.ltb_spec t (now + 10000000000)); [lia | reflexivity].
Qed.

(** *** The channel *)

Lemma received_from_app (l1 l2 : list event) :
  received_from (l1 ++ l2) = received_from l1 ++ received_from l2.
Proof. apply omap_app. Qed.

Lemma timeouts_app (l1 l2 : list event) :
  timeouts (l1 ++ l2) = timeouts l1 ++ timeouts l2.
Proof. apply omap_app. Qed.

Lemma remove_absent_sender (q : list goroutine) (id : nat) :
  id ∉ g_call <$> q -> remove_sender id q = q.
Proof.
  unfold remove_sender. induction q as [|h q IH]; intros Hid; [reflexivity |].
  rewrite fmap_cons in Hid. apply not_elem_of_cons in Hid as [Hne Hid].
  rewrite filter_cons, decide_True by congruence. f_equal. now apply IH.
Qed.

(** A receive takes exactly the goroutine it is served by off the
    channel. *)
Lemma remove_sender_perm (q : list goroutine) (g : goroutine) :
  NoDup (g_call <$> q) -> g ∈ q ->
  g_call <$> q ≡ₚ g_call g :: (g_call <$> remove_sender (g_call g) q).
Proof.
  induction q as [|h q IH]; intros Hnd Hg.
  - now apply elem_of_nil in Hg.
  - rewrite fmap_cons in Hnd. apply NoDup_cons in Hnd as [Hh Hnd].
    unfold remove_sender. rewrite filter_cons.
    destruct (decide (g_call h = g_call g)) as [Heq | Hne].
    + rewrite decide_False by (intros Hne; now apply Hne).
      fold (remove_sender (g_call g) q).
      rewrite remove_absent_sender by congruence.
      rewrite fmap_cons. now rewrite Heq.
    + rewrite decide_True by exact Hne. fold (remove_sender (g_call g) q).
      apply elem_of_cons in Hg as [-> | Hg]; [contradiction |].
      rewrite !fmap_cons, (IH Hnd Hg). apply Permutation_swap.
Qed.

(** The accounting holds again after each attempt. *)
Lemma accounted_attempt (s : sensor) (retry : Z) (st : state) :
  accounted s st ->
  let st1 := attempt_prologue s retry st in
  match select (clock st1) (response st1) with
  | Response g t => accounted s (received g t st1)
  | After t => accounted s (timed_out retry t st1)
  end.
Proof.
  intros (Hperm & Hcount & Hchan & Hrecv) st1.
  set (st0 := if 0 <? retry then sleep (mulDuration Second retry) st else st).
  assert (H0 : response st0 = response st /\ started st0 = started st /\
               received_from (trace st0) = received_from (trace st) /\
               timeouts (trace st0) = timeouts (trace st) /\
               forall from err, EvResponse from err ∈ trace st0 ->
                                EvResponse from err ∈ trace st).
  { subst st0. destruct (0 <? retry); [| now repeat split].
    cbn [response started trace sleep].
    rewrite received_from_app, timeouts_app, !app_nil_r.
    repeat split. intros from err Hin.
    apply elem_of_app in Hin as [Hin | Hin]; [exact Hin |].
    apply list_elem_of_singleton in Hin. discriminate. }
  destruct H0 as (Hq0 & Hst0 & Hrec0 & Hto0 & Htr0).
  assert (Hq1 : response st1 = response st ++ [go_func s (started st) (clock st0)]).
  { subst st1. unfold attempt_prologue. fold st0. cbn [response spawn].
    now rewrite Hq0, Hst0. }
  assert (Hst1 : started st1 = S (started st)).
  { subst st1. unfold attempt_prologue. fold st0. cbn [started spawn]. now rewrite Hst0. }
  assert (Htr1 : received_from (trace st1) = received_from (trace st) /\
                 timeouts (trace st1) = timeouts (trace st) /\
                 forall from err, EvResponse from err ∈ trace st1 ->
                                  EvResponse from err ∈ trace st).
  { subst st1. unfold attempt_prologue. fold st0. cbn [trace spawn].
    rewrite received_from_app, timeouts_app, !app_nil_r, Hrec0, Hto0.
    repeat split. intros from err Hin.
    apply elem_of_app in Hin as [Hin | Hin]; [now apply Htr0 |].
    apply list_elem_of_singleton in Hin. discriminate. }
  destruct Htr1 as (Hrec1 & Hto1 & Htr1).
  assert (Hperm1 : (g_call <$> response st1) ++ received_from (trace st1)
                   ≡ₚ seq 0 (S (started st))).
  { rewrite Hq1, Hrec1, fmap_app, seq_S, <- Hperm. cbn [fmap list_fmap g_call go_func].
    rewrite <- !app_assoc. f_equiv. apply Permutation_app_comm. }
  assert (Hchan1 : forall g, g ∈ response st1 ->
                     g_sends g = sent s (g_call g) /\
                     (is_Some (g_sends_at g) <-> is_Some (returns_after (s (g_call g))))).
  { intros g Hg. rewrite Hq1 in Hg. apply elem_of_app in Hg as [Hg | Hg];
      [now apply Hchan |].
    apply list_elem_of_singleton in Hg as ->. unfold sent, go_func. cbn.
    split; [reflexivity |]. now rewrite fmap_is_Some. }
  assert (Hnd1 : NoDup (g_call <$> response st1)).
  { assert (Hnd : NoDup ((g_call <$> response st1) ++ received_from (trace st1)))
      by (rewrite Hperm1; apply NoDup_seq).
    now apply NoDup_app in Hnd as [Hnd _]. }
  destruct (select (clock st1) (response st1)) as [g t | t] eqn:Hsel.
  - apply select_response in Hsel as [Hg Hat].
    destruct (Hchan1 g Hg) as [Hsends Hreturns].
    unfold accounted. cbn [response started trace received].
    rewrite received_from_app, timeouts_app, app_nil_r, Hrec1, Hto1, Hst1.
    cbn [received_from omap list_omap app]. split; [| split; [| split]].
    + rewrite <- Hperm1, Hrec1, (remove_sender_perm _ g Hnd1 Hg).
      cbn [app]. rewrite Permutation_middle. f_equiv.
      symmetry. apply Permutation_cons_append.
    + rewrite length_app. cbn [length]. lia.
    + intros g' Hg'. unfold remove_sender in Hg'.
      apply list_elem_of_filter in Hg' as [_ Hg']. now apply Hchan1.
    + intros from err Hin. apply elem_of_app in Hin as [Hin | Hin].
      * now apply Hrecv, Htr1.
      * apply list_elem_of_singleton in Hin. injection Hin as -> ->.
        split; [exact Hsends | now apply Hreturns].
  - unfold accounted. cbn [response started trace timed_out].
    rewrite received_from_app, timeouts_app, app_nil_r, Hrec1, Hto1, Hst1.
    cbn [timeouts omap list_omap app]. split; [| split; [| split]].
    + now rewrite <- Hperm1, Hrec1.
    + rewrite length_app. cbn [length]. lia.
    + exact Hchan1.
    + intros from err Hin. apply elem_of_app in Hin as [Hin | Hin].
      * now apply Hrecv, Htr1.
      * apply list_elem_of_singleton in Hin. discriminate.
Qed.

Lemma loop_accounted (N : Z) (s : sensor) (fuel : nat) :
  forall (retry : Z) (st st' : state),
    accounted s st -> loop fuel N s retry st = Some st' -> accounted s st'.
Proof.
  induction fuel as [|fuel IH]; intros retry st st' Hacc Hrun; rewrite loop_unfold in Hrun.
  - destruct (retry <=? N); [discriminate | congruence].
  - destruct (retry <=? N); [| congruence].
    cbv zeta in Hrun. pose proof (accounted_attempt s retry st Hacc) as Hstep.
    cbv zeta in Hstep.
    destruct (select _ _) as [g t | t].
    + destruct (g_sends g); [now apply IH in Hrun | congruence].
    + now apply IH in Hrun.
Qed.

Lemma accounted_init (s : sensor) : accounted s init.
Proof.
  unfold accounted, init. cbn [response trace started fmap list_fmap app].
  split; [reflexivity |]. split; [reflexivity |].
  split; [intros g Hg | intros from err Hg]; now apply elem_of_nil in Hg.
Qed.

(** X3.  In every run that returns, whatever the retries: each call
    started is either still pending on [response] (it has not returned, or
    its send is blocked) or was received from, never both; no goroutine is
    received from twice; and the goroutines left pending when the executor
    returns are as many as the attempts that timed out. *)
Theorem calls_accounted_for (N : Z) (s : sensor) (fuel : nat) (st : state) :
  sensorMakePassive_with fuel N s = Some st ->
  (g_call <$> response st) ++ received_from (trace st) ≡ₚ seq 0 (started st) /\
  NoDup (received_from (trace st)) /\
  (forall id, id ∈ received_from (trace st) -> id ∉ g_call <$> response st) /\
  length (response st) = length (timeouts (trace st)).
Proof.
  intros Hrun.
  destruct (loop_accounted N s fuel 0 init st (accounted_init s) Hrun)
    as (Hperm & Hcount & _ & _).
  assert (Hnd : NoDup ((g_call <$> response st) ++ received_from (trace st)))
    by (rewrite Hperm; apply NoDup_seq).
  apply NoDup_app in Hnd as (_ & Hdisjoint & Hnd).
  split; [exact Hperm |]. split; [exact Hnd |]. split.
  - intros id Hid Hin. exact (Hdisjoint id Hin Hid).
  - apply Permutation_length in Hperm.
    rewrite length_app, length_fmap, length_seq in Hperm. lia.
Qed.

Lemma calls_accounted_for_witness :
  exists st : state,
    sensorMakePassive_with 3 2 late_ok_then_err = Some st /\
    g_call <$> response st = [1%nat] /\
    received_from (trace st) = [0%nat] /\
    timeouts (trace st) = [0] /\
    length (response st) = length (timeouts (trace st)).
Proof.
  eexists. split; [reflexivity |].
  split; [reflexivity |]. split; [reflexivity |]. split; [reflexivity |].
  eapply (calls_accounted_for 2 late_ok_then_err 3). reflexivity.
Defined.

Lemma last_in_attempts (delay : Z -> Z) (os : list event) (o : event) :
  forall k : nat, last os = Some o -> o ∈ attempts_from delay k os.
Proof.
  induction os as [|o' os IH]; intros k Hlast; [discriminate |].
  cbn [attempts_from]. unfold attempt_events. rewrite last_cons in Hlast.
  destruct (last os) as [o''|] eqn:Hos.
  - injection Hlast as ->. apply elem_of_app. right. now apply IH.
  - injection Hlast as ->. apply elem_of_app. left. apply elem_of_app. right.
    apply list_elem_of_further, list_elem_of_here.
Qed.

(** X4.  What the executor returns comes from the calls it started.  A
    value received was sent by the goroutine of a call that had returned.
    The executor returns [nil] only if one of its calls returned [nil];
    and an error it returns is the timeout error with the number [N] of
    retries, or the error of one of its calls behind the prefix of
    [fmt.Errorf]. *)
Theorem results_come_from_calls (N : Z) (s : sensor) (fuel : nat) (st : state) :
  0 <= N -> N < MaxInt64 ->
  sensorMakePassive_with fuel N s = Some st ->
  (forall from err, EvResponse from err ∈ trace st ->
     (from < started st)%nat /\ is_Some (returns_after (s from)) /\ err = sent s from) /\
  (responseError st = None ->
   exists from, (from < started st)%nat /\ is_Some (returns_after (s from)) /\
                returns_err (s from) = None) /\
  (forall e, responseError st = Some e ->
     e = timeout_error N \/
     exists from err, (from < started st)%nat /\ returns_err (s from) = Some err /\
                      e = "Cannot switch sensor to passive mode: " +:+ err).
Proof.
  intros Hpos HN Hrun.
  destruct (loop_accounted N s fuel 0 init st (accounted_init s) Hrun)
    as (Hperm & _ & _ & Hrecv).
  assert (Hfrom : forall from err, EvResponse from err ∈ trace st ->
            (from < started st)%nat /\ is_Some (returns_after (s from)) /\
            err = sent s from).
  { intros from err Hin. destruct (Hrecv from err Hin) as [-> Hret].
    split; [| now split].
    assert (Hmem : from ∈ (g_call <$> response st) ++ received_from (trace st)).
    { apply elem_of_app. right. unfold received_from. apply list_elem_of_omap.
      now exists (EvResponse from (sent s from)). }
    rewrite Hperm in Hmem. apply elem_of_seq in Hmem. lia. }
  destruct (loop_shape N s fuel HN 0 init st eq_refl ltac:(lia) Hrun)
    as (os & Htrace & _ & Hne & _ & Hlast & Herr & _).
  change (Z.of_nat 0) with 0 in *. cbn [trace init app responseError] in *.
  specialize (Hne Hpos).
  destruct (last os) as [o|] eqn:Ho; [| now apply last_None in Ho].
  cbn in Herr.
  assert (Hin : o ∈ trace st) by (rewrite Htrace; now apply last_in_attempts).
  split; [exact Hfrom |]. split.
  - intros Hnil. rewrite Hnil in Herr.
    destruct (Hlast o eq_refl) as [[from ->] | [[-> | (from & err & ->)] _]];
      try discriminate.
    destruct (Hfrom from None Hin) as (Hlt & Hret & Hsent).
    exists from. split; [exact Hlt |]. split; [exact Hret |].
    unfold sent, go_func in Hsent. cbn in Hsent.
    now destruct (returns_err (s from)).
  - intros e He. rewrite He in Herr.
    destruct (Hlast o eq_refl) as [[from ->] | [[-> | (from & err & ->)] _]];
      try discriminate.
    + left. cbn in Herr. congruence.
    + right. cbn in Herr. injection Herr as ->.
      destruct (Hfrom from (Some err) Hin) as (Hlt & _ & Hsent).
      unfold sent, go_func in Hsent. cbn in Hsent.
      destruct (returns_err (s from)) as [err0|] eqn:Hret; [| discriminate].
      injection Hsent as ->. exists from, err0. now repeat split.
Qed.

Lemma results_come_from_calls_witness :
  exists st : state,
    sensorMakePassive_with 2 1 late_ok_then_err = Some st /\
    responseError st = None /\
    exists from, (from < started st)%nat /\
                 is_Some (returns_after (late_ok_then_err from)) /\
                 returns_err (late_ok_then_err from) = None.
Proof.
  eexists. split; [reflexivity |]. split; [reflexivity |].
  eapply (results_come_from_calls 1 late_ok_then_err 2);
    [lia | reflexivity | reflexivity | reflexivity].
Defined.

Lemma stops_at_first_success_witness :
  exists st : state,
    sensorMakePassive_with 3 2 late_ok_then_err = Some st /\
    calls (trace st) = [0; 1]%nat /\
    responseError st = None.
Proof.
  destruct (stops_at_first_success 2 late_ok_then_err 3)
    as (st & os & o & Hrun & Htrace & Hcalls & _ & _ & _ & _ & _ & Hfew);
    [lia | reflexivity | lia |].
  exists st. split; [exact Hrun |].
  assert (Hos : length os = 2%nat).
  { apply (f_equal (@length nat)) in Hcalls. rewrite length_seq in Hcalls.
    rewrite <- Hcalls. vm_compute in Hrun. injection Hrun as <-. reflexivity. }
  split; [rewrite Hcalls, Hos; reflexivity |].
  apply Hfew. rewrite Hos. lia.
Defined.

(** *** The clock *)

Lemma waited_app (tr tr' : list event) : waited (tr ++ tr') = waited tr + waited tr'.
Proof. induction tr as [|e tr IH]; cbn [app waited]; lia. Qed.

Lemma waits_nonneg (e : event) : 0 <= waits e.
Proof.
  destruct e; cbn [waits]; try lia.
  change (mulDuration Second apiCallTimeout) with 10000000000. lia.
Qed.

Lemma waited_nonneg (tr : list event) : 0 <= waited tr.
Proof.
  induction tr as [|e tr IH]; cbn [waited]; [lia |].
  pose proof (waits_nonneg e). lia.
Qed.

Lemma waited_elem (e : event) (tr : list event) : e ∈ tr -> waits e <= waited tr.
Proof.
  induction tr as [|e' tr IH]; intros Hin; [now apply elem_of_nil in Hin |].
  cbn [waited]. pose proof (waits_nonneg e'). pose proof (waited_nonneg tr).
  apply elem_of_cons in Hin as [-> | Hin]; [lia |]. apply IH in Hin. lia.
Qed.

(** The clock never runs behind the timers. *)
Lemma loop_waited (N : Z) (s : sensor) (fuel : nat) :
  forall (retry : Z) (st st' : state),
    waited (trace st) <= clock st ->
    loop fuel N s retry st = Some st' ->
    waited (trace st') <= clock st'.
Proof.
  induction fuel as [|fuel IH]; intros retry st st' Hst Hrun; rewrite loop_unfold in Hrun.
  - destruct (retry <=? N); [discriminate |]. now injection Hrun as <-.
  - destruct (retry <=? N); [| now injection Hrun as <-].
    cbv zeta in Hrun.
    assert (Hst1 : waited (trace (attempt_prologue s retry st))
                   <= clock (attempt_prologue s retry st)).
    { unfold attempt_prologue.
      destruct (0 <? retry); cbn [trace clock spawn sleep]; rewrite !waited_app;
        cbn [waited waits]; lia. }
    set (st1 := attempt_prologue s retry st) in *.
    pose proof (select_clock (clock st1) (response st1)) as Hsel.
    destruct (select (clock st1) (response st1)) as [g t | t].
    + assert (Hrecv : waited (trace (received g t st1)) <= clock (received g t st1)).
      { cbn [trace clock received]. rewrite waited_app. cbn [waited waits]. lia. }
      destruct (g_sends g); [now apply IH in Hrun | now injection Hrun as <-].
    + apply IH in Hrun; [exact Hrun |].
      cbn [trace clock timed_out]. rewrite waited_app. cbn [waited waits]. lia.
Qed.

(** X2.  The executor is never faster than the timers it sets.  For
    [0 <= N < 2^63 - 1] retries and any sensor it returns, and no sooner
    than after the sleeps of its run and one timeout of 10 s for each
    attempt that timed out.  So a run in which an attempt timed out does
    not return within 10 s, a run does not return before a sleep it has
    taken is over, and the timeout error of the last attempt is not
    returned within 10 s of the call.  These bounds are from below: the
    timers of the runtime fire when their duration has passed, or
    later. *)
Theorem returns_no_sooner_than_timers (N : Z) (s : sensor) (fuel : nat) :
  0 <= N -> N < MaxInt64 -> (Z.to_nat (N + 1) <= fuel)%nat ->
  exists st : state,
    sensorMakePassive_with fuel N s = Some st /\
    0 <= waited (trace st) <= clock st /\
    (forall k, EvAfter k ∈ trace st -> 10 * Second <= clock st) /\
    (forall d, EvSleep d ∈ trace st -> d <= clock st) /\
    (responseError st = Some (timeout_error N) -> 10 * Second <= clock st).
Proof.
  intros Hpos HN Hfuel.
  destruct (loop_returns N s fuel HN 0 init) as [st Hrun].
  { change (Z.of_nat 0) with 0. now replace (N + 1 - 0) with (N + 1) by lia. }
  change (Z.of_nat 0) with 0 in Hrun.
  exists st. split; [exact Hrun |].
  assert (Hw : waited (trace st) <= clock st).
  { apply (loop_waited N s fuel 0 init st); [cbn; lia | exact Hrun]. }
  assert (Hafter : forall k, EvAfter k ∈ trace st -> 10 * Second <= clock st).
  { intros k Hin. apply waited_elem in Hin. cbn [waits] in Hin.
    change (mulDuration Second apiCallTimeout) with 10000000000 in Hin.
    unfold Second. lia. }
  split; [split; [apply waited_nonneg | exact Hw] |].
  split; [exact Hafter |]. split.
  - intros d Hin. apply waited_elem in Hin. cbn [waits] in Hin. lia.
  - intros Herr.
    destruct (loop_accounted N s fuel 0 init st (accounted_init s) Hrun)
      as (_ & _ & _ & Hrecv).
    destruct (loop_shape N s fuel HN 0 init st eq_refl ltac:(lia) Hrun)
      as (os & Htrace & _ & Hne & _ & Hlast & Hreason & _).
    change (Z.of_nat 0) with 0 in *. cbn [trace init app responseError] in *.
    specialize (Hne Hpos).
    destruct (last os) as [o|] eqn:Ho; [| now apply last_None in Ho].
    cbn in Hreason.
    assert (Hin : o ∈ trace st) by (rewrite Htrace; now apply last_in_attempts).
    rewrite Herr in Hreason.
    destruct (Hlast o eq_refl) as [[from ->] | [[-> | (from & err & ->)] _]];
      try discriminate.
    + now apply (Hafter N).
    + exfalso. cbn in Hreason. injection Hreason as <-.
      destruct (Hrecv from _ Hin) as [Hsent _].
      unfold sent, go_func in Hsent. cbn in Hsent.
      destruct (returns_err (s from)); discriminate.
Qed.

Lemma returns_no_sooner_than_timers_witness :
  exists st : state,
    sensorMakePassive_with 3 2 silent = Some st /\
    waited (trace st) = 33 * Second /\
    33 * Second <= clock st.
Proof.
  destruct (returns_no_sooner_than_timers 2 silent 3) as (st & Hrun & [_ Hw] & _);
    [lia | unfold MaxInt64; lia | lia |].
  exists st. split; [exact Hrun |].
  assert (Hwaited : waited (trace st) = 33 * Second).
  { vm_compute in Hrun. injection Hrun as <-. reflexivity. }
  split; [exact Hwaited |]. now rewrite <- Hwaited.
Defined.

End ExecutorRuns.

(** ** The device controller, run by run *)

Module ControllerRuns.
Import GoInt GoIntFacts Controller ControllerFacts.

#[local] Set Warnings "-clear-no-such-hyp".

(** *** Splitting a list at an occurrence *)



(** An occurrence in a list with one more element at its end. *)
Lemma snoc_split {A : Type} (l : list A) e l1 x l2 :
  l ++ [e] = l1 ++ x :: l2 ->
  (l2 = [] /\ x = e /\ l1 = l) \/ (exists l2', l2 = l2' ++ [e] /\ l = l1 ++ x :: l2').
Proof.
  revert l. induction l1 as [|y l1 IH]; intros l Heq.
  - destruct l as [|a l]; cbn in Heq; injection Heq as -> <-.
    + now left.
    + right. now exists l.
  - destruct l as [|a l]; cbn in Heq; injection Heq as -> Heq.
    + now destruct l1.
    + destruct (IH l Heq) as [(-> & -> & ->) | (l2' & -> & ->)].
      * now left.
      * right. now exists l2'.
Qed.

Section Runs.

Context {float64 : Type}.
Implicit Types (f : flags) (dev : device float64) (p : process float64).
Implicit Types (a : action float64) (l : list (action float64)).

Ltac phases :=
  repeat apply Forall_app_2;
  first
    [ eapply Forall_impl; [apply opened_phase |]; cbn; intros; lia
    | eapply Forall_impl; [eapply configured_phase; eassumption |]; cbn; intros; lia
    | eapply Forall_impl; [apply loop_actions_phase |]; cbn; intros; lia
    | repeat constructor; cbn; lia ].

Lemma run_exit f dev n l s :
  run f dev n l s ->
  (s = Running /\ Forall (λ a, phase a <> 5%nat) l) \/
  (s = Exited 1 /\
   exists l0, l = l0 ++ [Exit 1] /\
              Forall (λ a, phase a <> 5%nat /\ phase a <> 4%nat) l0).
Proof.
  destruct 1 as [err Hnew | o Hnew Hpassive Ho | cfg Hnew Hpassive Hcfg
                | cfg err Hnew Hpassive Hcfg Hact | cfg Hnew Hpassive Hcfg Hact].
  - right. split; [reflexivity |]. exists [New (portPath f)].
    split; [reflexivity |]. repeat constructor; discriminate.
  - right. split; [reflexivity |].
    exists [New (portPath f); Passive (Executor.EvGo 0); Passive o].
    split; [reflexivity |]. repeat constructor; discriminate.
  - right. split; [reflexivity |]. exists (opened f ++ cfg).
    split; [now rewrite <- app_assoc |]. phases.
  - right. split; [reflexivity |]. exists (opened f ++ cfg ++ [MakeActive]).
    split; [now rewrite <- !app_assoc |]. phases.
  - left. split; [reflexivity |]. phases.
Qed.

(** *** A start-up that fails *)

Lemma startup_failed_run f dev n :
  ~ startup_succeeds f dev -> recordMetrics f dev n = startup f dev.
Proof.
  unfold startup_succeeds, recordMetrics, and_then. intros Hs.
  destruct (state (startup f dev)); [contradiction | reflexivity ..].
Qed.

(** X6.  When the start-up does not go through, whatever the reason, the
    process has exited with the status 1 without a single read of a
    measurement and without a single write to the gauge, which is empty:
    no value is ever exported; and observing the run for longer shows
    nothing more. *)
Theorem failed_startup_publishes_nothing f dev n :
  ~ startup_succeeds f dev ->
  state (recordMetrics f dev n) = Exited 1 /\
  airqualityPM (recordMetrics f dev n) = ∅ /\
  (forall a, a ∈ actions (recordMetrics f dev n) ->
             is_Get a = false /\ is_GaugeSet a = false) /\
  recordMetrics f dev n = recordMetrics f dev 0.
Proof.
  intros Hs.
  destruct (run_exit _ _ _ _ _ (recordMetrics_run f dev n))
    as [[Hst _] | (Hst & l0 & Hl & Hl0)].
  { exfalso. apply Hs. unfold startup_succeeds.
    now rewrite <- (recordMetrics_state f dev n). }
  split; [exact Hst |]. split; [| split].
  - rewrite (startup_failed_run f dev n Hs). apply startup_sink.
  - intros a Ha. rewrite Hl in Ha. apply elem_of_app in Ha as [Ha | Ha].
    + rewrite Forall_forall in Hl0. destruct (Hl0 a Ha) as [_ H4].
      destruct a; cbn in *; now try split.
    + apply list_elem_of_singleton in Ha as ->. now split.
  - now rewrite !startup_failed_run.
Qed.

(** *** What the gauge holds *)

Lemma last_point_found dev n i (point : Point float64) :
  (i < n)%nat -> dev_Get dev i = Ok point ->
  (forall j, (i < j < n)%nat -> exists err, dev_Get dev j = Err err) ->
  last_point dev n = Some point.
Proof.
  induction n as [|n IH]; intros Hi Hget Hlater; [lia |].
  cbn [last_point]. destruct (decide (i = n)) as [-> | Hne].
  - now rewrite Hget.
  - destruct (Hlater n) as [err ->]; [lia |].
    apply IH; [lia | exact Hget |]. intros j Hj. apply Hlater. lia.
Qed.

Lemma last_point_none dev n :
  (forall j, (j < n)%nat -> exists err, dev_Get dev j = Err err) ->
  last_point dev n = None.
Proof.
  induction n as [|n IH]; intros Hall; [reflexivity |].
  cbn [last_point]. destruct (Hall n) as [err ->]; [lia |].
  apply IH. intros j Hj. apply Hall. lia.
Qed.

Lemma overwritten (m : gmap string float64) (v10 v25 : float64) :
  dom m ⊆ {["pm2.5"; "pm10"]} ->
  <["pm10" := v10]> (<["pm2.5" := v25]> m) = <["pm10" := v10]> (<["pm2.5" := v25]> ∅).
Proof.
  intros Hm. apply map_eq. intros k.
  destruct (decide (k = "pm10")) as [-> | Hk]; [now rewrite !lookup_insert_eq |].
  rewrite !(lookup_insert_ne _ "pm10") by congruence.
  destruct (decide (k = "pm2.5")) as [-> | Hk']; [now rewrite !lookup_insert_eq |].
  rewrite !lookup_insert_ne by congruence. rewrite lookup_empty.
  apply not_elem_of_dom. set_solver.
Qed.

Lemma recordMetrics_gauge f dev n :
  startup_succeeds f dev ->
  airqualityPM (recordMetrics f dev n) =
  match last_point dev n with
  | Some point => <["pm10" := PM10 point]> (<["pm2.5" := PM25 point]> ∅)
  | None => ∅
  end.
Proof.
  intros Hs. induction n as [|n IH].
  - unfold recordMetrics, and_then. rewrite Hs. apply startup_sink.
  - rewrite (recordMetrics_snoc f dev n Hs). unfold iteration. cbn [last_point].
    destruct (dev_Get dev n) as [point | err]; [| exact IH].
    cbn [airqualityPM gaugeSet act]. apply overwritten, recordMetrics_dom.
Qed.

(** X7.  Once the start-up has gone through, the gauge after any number of
    iterations holds the measurement of the last read that succeeded, and
    only that: its [PM25] under ["pm2.5"] and its [PM10] under ["pm10"].
    Reads that failed since then have not changed it, earlier measurements
    are gone, and as long as no read has succeeded the gauge is empty. *)
Theorem gauge_holds_last_point f dev n :
  startup_succeeds f dev ->
  airqualityPM (recordMetrics f dev n) =
    match last_point dev n with
    | Some point => <["pm10" := PM10 point]> (<["pm2.5" := PM25 point]> ∅)
    | None => ∅
    end /\
  (forall i point,
     (i < n)%nat -> dev_Get dev i = Ok point ->
     (forall j, (i < j < n)%nat -> exists err, dev_Get dev j = Err err) ->
     airqualityPM (recordMetrics f dev n) =
       <["pm10" := PM10 point]> (<["pm2.5" := PM25 point]> ∅)) /\
  ((forall j, (j < n)%nat -> exists err, dev_Get dev j = Err err) ->
   airqualityPM (recordMetrics f dev n) = ∅).
Proof.
  intros Hs. rewrite (recordMetrics_gauge f dev n Hs).
  split; [reflexivity |]. split.
  - intros i point Hi Hget Hlater.
    now rewrite (last_point_found dev n i point Hi Hget Hlater).
  - intros Hall. now rewrite (last_point_none dev n Hall).
Qed.

(** *** The writes to the gauge *)

Lemma run_loop f dev n l :
  run f dev n l Running ->
  exists pre, l = pre ++ loop_actions dev n 0 /\
              Forall (λ a, (phase a < 4)%nat) pre.
Proof.
  intros Hrun. destruct (run_reading _ _ _ _ _ Hrun eq_refl) as (cfg & Hcfg & -> & _).
  exists (opened f ++ cfg ++ [MakeActive]). split; [now rewrite <- !app_assoc |].
  phases.
Qed.



(** *** Counting the calls *)

Lemma occurrences_nil (kind : action float64 -> bool) : occurrences kind [] = 0%nat.
Proof. reflexivity. Qed.

Lemma occurrences_cons (kind : action float64 -> bool) a l :
  occurrences kind (a :: l) = ((if kind a then 1 else 0) + occurrences kind l)%nat.
Proof.
  unfold occurrences. rewrite filter_cons.
  destruct (kind a); destruct (decide _) as [H | H]; cbn in *; tauto.
Qed.

Lemma occurrences_app (kind : action float64 -> bool) l l' :
  occurrences kind (l ++ l') = (occurrences kind l + occurrences kind l')%nat.
Proof. unfold occurrences. now rewrite filter_app, length_app. Qed.

Lemma occurrences_phase (kind : action float64 -> bool) (k : nat) l :
  (forall a, kind a = true -> phase a = k) ->
  Forall (λ a, phase a <> k) l -> occurrences kind l = 0%nat.
Proof.
  intros Hk Hl. induction Hl as [|a l Ha Hl IH]; [reflexivity |].
  rewrite occurrences_cons, IH. destruct (kind a) eqn:Hkind; [| reflexivity].
  now apply Hk in Hkind.
Qed.

Lemma occurrences_loop (kind : action float64 -> bool) dev n i :
  (forall a, kind a = true -> phase a <> 4%nat) ->
  occurrences kind (loop_actions dev n i) = 0%nat.
Proof.
  intros Hk. induction (loop_actions_phase dev n i) as [|a l Ha Hl IH]; [reflexivity |].
  rewrite occurrences_cons, IH. destruct (kind a) eqn:Hkind; [| reflexivity].
  now apply Hk in Hkind.
Qed.

Lemma configured_shape f dev cfg ok :
  configured f dev cfg ok ->
  cfg = [SetCycle (uint8 (cycle f))] \/ cfg = [Cycle] \/
  cfg = [Cycle; SetCycle (uint8 (cycle f))].
Proof. destruct 1; auto. Qed.

Lemma loop_actions_no_set_cycle dev n i (v : Z) :
  SetCycle v ∉ loop_actions dev n i.
Proof.
  intros Hin. pose proof (loop_actions_phase dev n i) as Hl.
  rewrite Forall_forall in Hl. apply Hl in Hin. discriminate.
Qed.

Ltac count :=
  cbn [opened app];
  rewrite ?occurrences_cons, ?occurrences_loop, ?occurrences_nil
    by (intros []; cbn; (discriminate || lia));
  cbn [is_New is_MakePassive is_Cycle is_SetCycle is_MakeActive is_Get is_GaugeSet
       is_Exit head].

Ltac written :=
  let Hin := fresh "Hin" in
  intros ? Hin;
  repeat match type of Hin with
         | _ ∈ loop_actions _ _ _ => now apply loop_actions_no_set_cycle in Hin
         | _ ∈ _ :: _ => apply elem_of_cons in Hin as [Hin | Hin]
         | _ ∈ [] => now apply elem_of_nil in Hin
         | SetCycle _ = SetCycle _ => injection Hin as ->
         | _ = _ => discriminate Hin
         end;
  (split; [reflexivity | apply uint8_is_uint8]).

Ltac settle :=
  let Hst := fresh "Hst" in
  split; [reflexivity |]; do 6 (split; [lia |]); split; [written |];
  intros Hst; (discriminate Hst || (repeat split; lia)).

(** X9.  Each step of the start-up is taken at most once per run,
    whatever the device answers: [sds011.New] is called exactly once and
    first; [sensor.MakePassive], [sensor.Cycle], [sensor.SetCycle] and
    [sensor.MakeActive] are called at most once each, none of them ever
    by the read loop, and [os.Exit] is called at most once.  Every value
    passed to [sensor.SetCycle] is [uint8(cycle)], a value within 0..255.
    A run that reaches the read loop has called [sensor.MakePassive] and
    [sensor.MakeActive] once each, has read or written the cycle, and has
    not called [os.Exit]. *)
Theorem startup_steps_taken_once f dev n :
  let l := actions (recordMetrics f dev n) in
  head l = Some (New (portPath f)) /\
  occurrences is_New l = 1%nat /\
  (occurrences is_MakePassive l <= 1)%nat /\
  (occurrences is_Cycle l <= 1)%nat /\
  (occurrences is_SetCycle l <= 1)%nat /\
  (occurrences is_MakeActive l <= 1)%nat /\
  (occurrences is_Exit l <= 1)%nat /\
  (forall v, SetCycle v ∈ l -> v = uint8 (cycle f) /\ 0 <= v <= 255) /\
  (state (recordMetrics f dev n) = Running ->
   occurrences is_MakePassive l = 1%nat /\
   occurrences is_MakeActive l = 1%nat /\
   occurrences is_Exit l = 0%nat /\
   (1 <= occurrences is_Cycle l + occurrences is_SetCycle l)%nat).
Proof.
  intros l. subst l.
  destruct (recordMetrics_run f dev n)
    as [err Hnew | o Hnew Hpassive Ho | cfg Hnew Hpassive Hcfg
       | cfg err Hnew Hpassive Hcfg Hact | cfg Hnew Hpassive Hcfg Hact].
  - count. settle.
  - destruct Ho as [-> | (from & e & ->)]; count; settle.
  - destruct (configured_shape _ _ _ _ Hcfg) as [-> | [-> | ->]]; count; settle.
  - destruct (configured_shape _ _ _ _ Hcfg) as [-> | [-> | ->]]; count; settle.
  - destruct (configured_shape _ _ _ _ Hcfg) as [-> | [-> | ->]]; count; settle.
Qed.

Lemma reads_ok_none dev n :
  reads_ok dev n = 0%nat <->
  forall j, (j < n)%nat -> exists err, dev_Get dev j = Err err.
Proof.
  induction n as [|n IH]; cbn [reads_ok].
  - split; [intros _ j Hj; lia | reflexivity].
  - destruct (dev_Get dev n) as [point | err] eqn:Hget.
    + split; [discriminate |]. intros Hall. destruct (Hall n) as [err Herr]; [lia |].
      congruence.
    + rewrite IH. split.
      * intros Hall j Hj. destruct (decide (j = n)) as [-> | Hne]; [eauto |].
        apply Hall. lia.
      * intros Hall j Hj. apply Hall. lia.
Qed.

(** X10.  Once the start-up has gone through, every iteration of the loop
    calls [sensor.Get] exactly once, and the gauge is written exactly
    twice for each read that succeeded and not at all for one that
    failed: after [n] iterations there are [n] reads among the actions and
    twice as many writes as successful reads; there is no write at all
    exactly when every read so far has failed. *)
Theorem one_read_per_iteration f dev n :
  startup_succeeds f dev ->
  occurrences is_Get (actions (recordMetrics f dev n)) = n /\
  occurrences is_GaugeSet (actions (recordMetrics f dev n)) = (2 * reads_ok dev n)%nat /\
  (reads_ok dev n <= n)%nat /\
  (occurrences is_GaugeSet (actions (recordMetrics f dev n)) = 0%nat <->
   forall j, (j < n)%nat -> exists err, dev_Get dev j = Err err).
Proof.
  intros Hs.
  assert (Hcount : occurrences is_Get (actions (recordMetrics f dev n)) = n /\
                   occurrences is_GaugeSet (actions (recordMetrics f dev n))
                   = (2 * reads_ok dev n)%nat /\
                   (reads_ok dev n <= n)%nat).
  { induction n as [|n (IHget & IHset & IHle)].
    - pose proof (recordMetrics_run f dev 0) as Hrun.
      rewrite recordMetrics_state, Hs in Hrun.
      apply run_loop in Hrun as (pre & -> & Hpre). cbn [loop_actions reads_ok].
      rewrite app_nil_r.
      rewrite (occurrences_phase is_Get 4 pre), (occurrences_phase is_GaugeSet 4 pre);
        try (now intros []);
        try (eapply Forall_impl; [exact Hpre |]; cbn; intros; lia).
      repeat split; lia.
    - rewrite (recordMetrics_snoc f dev n Hs), iteration_actions.
      rewrite !occurrences_app, IHget, IHset. cbn [loop_actions reads_ok].
      destruct (dev_Get dev n) as [point | err]; count; repeat split; lia. }
  destruct Hcount as (Hget & Hset & Hle). repeat split; try assumption.
  - rewrite Hset. intros H0. apply reads_ok_none. lia.
  - intros Hall%reads_ok_none. rewrite Hset. lia.
Qed.

(** *** When the start-up goes through *)

Lemma passive_ok_answers dev :
  passive_ok dev <-> answers_in_time (dev_MakePassive dev).
Proof.
  unfold passive_ok, answers_in_time, Executor.sensorMakePassive.
  rewrite ExecutorFacts.first_attempt_run, ExecutorFacts.first_select.
  unfold Executor.first_attempt_of.
  destruct (Executor.returns_after (dev_MakePassive dev 0%nat)) as [d|].
  - destruct (Z.ltb_spec d (Executor.mulDuration Executor.Second Executor.apiCallTimeout))
      as [Hlt | Hge].
    + cbn. destruct (Executor.returns_err (dev_MakePassive dev 0%nat)) as [err|].
      * split; [discriminate |]. now intros (d' & _ & _ & Herr).
      * split; [| reflexivity]. intros _. exists d. now repeat split.
    + cbn. split; [discriminate |]. intros (d' & Hd & Hlt & _).
      injection Hd as <-. lia.
  - cbn. split; [discriminate |]. now intros (d' & Hd & _).
Qed.

Lemma configured_true f dev cfg :
  configured f dev cfg true -> configuration_ok f dev.
Proof.
  unfold configuration_ok. inversion 1 as [Hf Hset | | | c Hf Hread Hc | c Hf Hread Hc Hset |];
    rewrite Hf; eauto.
Qed.

Lemma configured_false f dev cfg :
  configured f dev cfg false -> ~ configuration_ok f dev.
Proof.
  unfold configuration_ok.
  inversion 1 as [| err Hf Hset | err Hf Hread | | | c err Hf Hread Hc Hset];
    rewrite Hf.
  - congruence.
  - intros (c & Hread' & _). congruence.
  - intros (c' & Hread' & [Hc' | Hset']); congruence.
Qed.

(** X11.  The start-up goes through, and the process reaches the read
    loop, exactly when [sds011.New] returns no error, the first call of
    [sensor.MakePassive] returns [nil] before the timeout of 10 s, the
    cycle configuration meets no error, and [sensor.MakeActive] returns
    [nil].  The cycle configuration meets no error when, under
    [forceSetCycle], [sensor.SetCycle(uint8(cycle))] returns [nil], and
    otherwise when [sensor.Cycle] returns a cycle that either is
    [uint8(cycle)] or can be replaced by it without an error. *)
Theorem startup_succeeds_iff f dev :
  startup_succeeds f dev <->
  dev_New dev = None /\
  answers_in_time (dev_MakePassive dev) /\
  configuration_ok f dev /\
  dev_MakeActive dev = None.
Proof.
  pose proof (recordMetrics_run f dev 0) as Hrun.
  rewrite recordMetrics_state in Hrun. unfold startup_succeeds.
  remember (state (startup f dev)) as s eqn:Hs.
  remember (actions (recordMetrics f dev 0)) as l eqn:Hl.
  clear Hs Hl.
  destruct Hrun as [err Hnew | o Hnew Hpassive Ho | cfg Hnew Hpassive Hcfg
                   | cfg err Hnew Hpassive Hcfg Hact | cfg Hnew Hpassive Hcfg Hact].
  - split; [discriminate |]. intros (Hnew' & _). congruence.
  - split; [discriminate |]. intros (_ & Hok%passive_ok_answers & _). contradiction.
  - split; [discriminate |]. intros (_ & _ & Hcfg' & _).
    exfalso. now apply (configured_false f dev cfg).
  - split; [discriminate |]. intros (_ & _ & _ & Hact'). congruence.
  - split; [| reflexivity]. intros _. split; [exact Hnew |].
    split; [now apply passive_ok_answers |].
    split; [now apply (configured_true f dev cfg) | exact Hact].
Qed.

End Runs.

Lemma failed_startup_publishes_nothing_witness :
  let dev := with_New (Some "no such file or directory") (healthy 5) in
  ~ startup_succeeds (usb 5 true) dev /\
  state (recordMetrics (usb 5 true) dev 3) = Exited 1 /\
  airqualityPM (recordMetrics (usb 5 true) dev 3) = ∅.
Proof.
  intros dev.
  assert (Hs : ~ startup_succeeds (usb 5 true) dev) by (vm_compute; discriminate).
  split; [exact Hs |].
  destruct (failed_startup_publishes_nothing (usb 5 true) dev 3 Hs)
    as (Hstate & Hgauge & _).
  split; [exact Hstate | exact Hgauge].
Defined.

Lemma gauge_holds_last_point_witness :
  airqualityPM (recordMetrics (usb 5 true) (healthy 5) 2) =
  <["pm10" := 20.1%Q]> (<["pm2.5" := 12.3%Q]> ∅).
Proof.
  destruct (gauge_holds_last_point (usb 5 true) (healthy 5) 2) as (_ & Hlast & _);
    [reflexivity |].
  apply (Hlast 0%nat {| PM25 := 12.3%Q; PM10 := 20.1%Q |}); [lia | reflexivity |].
  intros j Hj. assert (j = 1%nat) as -> by lia. now exists "EOF".
Defined.


Lemma one_read_per_iteration_witness :
  occurrences is_Get (actions (recordMetrics (usb 5 true) (healthy 5) 3)) = 3%nat /\
  occurrences is_GaugeSet (actions (recordMetrics (usb 5 true) (healthy 5) 3)) = 4%nat.
Proof.
  destruct (one_read_per_iteration (usb 5 true) (healthy 5) 3) as (Hget & Hset & _);
    [reflexivity |].
  split; [exact Hget | exact Hset].
Defined.

(** A start-up that goes through without a write of the cycle, and one
    that fails on it. *)
Example startup_on_configured_device :
  startup_succeeds (usb 5 false) (with_SetCycle (Some "EOF") (healthy 5)) /\
  ~ startup_succeeds (usb 10 false) (with_SetCycle (Some "EOF") (healthy 5)).
Proof. split; [reflexivity | vm_compute; discriminate]. Qed.

End ControllerRuns.

(** ** The log of the device controller, run by run *)

Module LoggedFacts.
Import GoInt GoIntFacts Controller ControllerFacts ControllerRuns Logged.

Section Facts.

Context {float64 : Type}.
Implicit Types (f : flags) (dev : device float64).
Implicit Types (p : logged float64) (q : process float64).
Implicit Types (e : entry float64) (l : list (entry float64)) (r : record float64).

(** *** The log and the run *)

Lemma done_app l l' : done (l ++ l') = done l ++ done l'.
Proof. apply omap_app. Qed.

Lemma logs_app l l' : logs (l ++ l') = logs l ++ logs l'.
Proof. apply omap_app. Qed.

Lemma logged_of_act a p q : logged_of p q -> logged_of (act_logged a p) (act a q).
Proof.
  intros (Hdone & Hstate & Hlevel). unfold logged_of, act_logged, act. cbn [entries lstate actions state].
  rewrite done_app, logs_app, Hdone, app_nil_r. now repeat split.
Qed.

Lemma logged_of_gaugeSet label (v : float64) p q :
  logged_of p q -> logged_of (act_logged (GaugeSet label v) p) (gaugeSet label v q).
Proof.
  intros (Hdone & Hstate & Hlevel). unfold logged_of, act_logged, gaugeSet. cbn [entries lstate actions state].
  rewrite done_app, logs_app, Hdone, app_nil_r. now repeat split.
Qed.

Lemma logged_of_log r p q :
  LevelInfo <= level r -> logged_of p q -> logged_of (log r p) q.
Proof.
  intros Hr (Hdone & Hstate & Hlevel). unfold logged_of, log. cbn [entries lstate actions state].
  rewrite done_app, logs_app, Hdone, app_nil_r. repeat split; try assumption.
  apply Forall_app_2; [assumption | now repeat constructor].
Qed.

Lemma logged_of_exit code p q :
  logged_of p q -> logged_of (exit_logged code p) (exit code q).
Proof.
  intros (Hdone & Hstate & Hlevel). unfold logged_of, exit_logged, exit. cbn [entries lstate actions state].
  rewrite done_app, logs_app, Hdone, app_nil_r. now repeat split.
Qed.

Lemma logged_of_and_then p q (k : logged float64 -> logged float64)
  (k' : process float64 -> process float64) :
  logged_of p q -> (forall p' q', logged_of p' q' -> logged_of (k p') (k' q')) ->
  logged_of (and_then_logged p k) (and_then q k').
Proof.
  intros Hpq Hk. unfold and_then_logged, and_then.
  destruct Hpq as (Hdone & Hstate & Hlevel). rewrite Hstate.
  destruct (state q) eqn:Hq; [apply Hk |..];
    (split; [assumption | split; [congruence | assumption]]).
Qed.

Create HintDb logged.

#[local] Hint Resolve logged_of_act logged_of_gaugeSet logged_of_log logged_of_exit
  : logged.

Ltac level :=
  unfold slog_Info, slog_Error; cbn [level]; unfold LevelInfo, LevelError; lia.

Lemma logged_of_open f dev p q :
  logged_of p q -> logged_of (open_sensor_logged f dev p) (open_sensor f dev q).
Proof.
  intros Hpq. unfold open_sensor_logged, open_sensor.
  destruct (dev_New dev); auto with logged.
  apply logged_of_exit, logged_of_log; [level | auto with logged].
Qed.

Lemma logged_of_passive dev p q :
  logged_of p q -> logged_of (make_passive_logged dev p) (make_passive dev q).
Proof.
  intros (Hdone & Hstate & Hlevel). unfold make_passive_logged, make_passive.
  destruct (Executor.sensorMakePassive (dev_MakePassive dev)) as [st|];
    [| now repeat split].
  assert (Hpassive : forall tr : list Executor.event,
            done ((λ ev, Do (@Passive float64 ev)) <$> tr) = Passive <$> tr /\
            logs ((λ ev, Do (@Passive float64 ev)) <$> tr) = []).
  { induction tr as [|ev tr [IHd IHl]]; [now split |]. cbn. split; [now f_equal |].
    exact IHl. }
  destruct (Hpassive (Executor.trace st)) as [Hd Hl].
  cbv zeta.
  assert (Hp : logged_of
             {| entries := entries p ++ ((λ ev, Do (Passive ev)) <$> Executor.trace st);
                lstate := lstate p |}
             {| actions := actions q ++ (Passive <$> Executor.trace st);
                airqualityPM := airqualityPM q; state := state q |}).
  { unfold logged_of. cbn [entries lstate actions state].
    rewrite done_app, logs_app, Hdone, Hd, Hl, app_nil_r.
    now repeat split. }
  destruct (Executor.responseError st); [| exact Hp].
  apply logged_of_exit, logged_of_log; [level | exact Hp].
Qed.

Lemma logged_of_set_cycle f dev p q :
  logged_of p q -> logged_of (set_cycle_logged f dev p) (set_cycle f dev q).
Proof.
  intros Hpq. unfold set_cycle_logged, set_cycle.
  assert (Hp : logged_of
            (act_logged (SetCycle (uint8 (cycle f)))
               (log (slog_Info "Setting sensor cycle" [("minutes", IntValue (cycle f))]) p))
            (act (SetCycle (uint8 (cycle f))) q)).
  { apply logged_of_act, logged_of_log; [level | exact Hpq]. }
  destruct (dev_SetCycle dev (uint8 (cycle f))); [| exact Hp].
  apply logged_of_exit, logged_of_log; [level | exact Hp].
Qed.

Lemma logged_of_configure f dev p q :
  logged_of p q -> logged_of (configure_cycle_logged f dev p) (configure_cycle f dev q).
Proof.
  intros Hpq. unfold configure_cycle_logged, configure_cycle.
  destruct (forceSetCycle f); [now apply logged_of_set_cycle |].
  destruct (dev_Cycle dev) as [currentCycle | err].
  - destruct (bool_decide _); [apply logged_of_set_cycle |]; auto with logged.
  - apply logged_of_exit, logged_of_log; [level | auto with logged].
Qed.

Lemma logged_of_active dev p q :
  logged_of p q -> logged_of (make_active_logged dev p) (make_active dev q).
Proof.
  intros Hpq. unfold make_active_logged, make_active.
  assert (Hp : logged_of
            (act_logged MakeActive (log (slog_Info "Switching sensor to active mode" []) p))
            (act MakeActive q)).
  { apply logged_of_act, logged_of_log; [level | exact Hpq]. }
  destruct (dev_MakeActive dev); [| exact Hp].
  apply logged_of_exit, logged_of_log; [level | exact Hp].
Qed.

Lemma logged_of_iteration dev i p q :
  logged_of p q -> logged_of (iteration_logged dev i p) (iteration dev i q).
Proof.
  intros Hpq. unfold iteration_logged, iteration.
  destruct (dev_Get dev i) as [point | err].
  - do 2 apply logged_of_gaugeSet. apply logged_of_log; [level | auto with logged].
  - apply logged_of_log; [level | auto with logged].
Qed.

Lemma logged_of_read_loop dev n :
  forall i p q,
    logged_of p q -> logged_of (read_loop_logged dev n i p) (read_loop dev n i q).
Proof.
  induction n as [|n IH]; intros i p q Hpq; [exact Hpq |].
  cbn [read_loop_logged read_loop]. now apply IH, logged_of_iteration.
Qed.

(** The log changes nothing of the run: without its records, a logged run
    is the run. *)
Lemma logged_of_recordMetrics f dev n :
  logged_of (recordMetrics_logged f dev n) (recordMetrics f dev n).
Proof.
  unfold recordMetrics_logged, recordMetrics, startup_logged, startup.
  repeat (apply logged_of_and_then;
          [| intros p' q';
             first [ apply logged_of_read_loop | apply logged_of_active
                   | apply logged_of_configure | apply logged_of_passive ] ]).
  apply logged_of_open. unfold logged_of. cbn. now repeat split.
Qed.

(** *** The shape of a logged run *)












Lemma iteration_logged_entries dev i p :
  entries (iteration_logged dev i p) = entries p ++ loop_entries dev 1 i /\
  lstate (iteration_logged dev i p) = lstate p.
Proof.
  unfold iteration_logged. cbn [loop_entries]. rewrite app_nil_r.
  destruct (dev_Get dev i); cbn [entries lstate act_logged log];
    rewrite <- ?app_assoc; now split.
Qed.

Lemma read_loop_logged_entries dev n :
  forall i p,
    entries (read_loop_logged dev n i p) = entries p ++ loop_entries dev n i /\
    lstate (read_loop_logged dev n i p) = lstate p.
Proof.
  induction n as [|n IH]; intros i p.
  - cbn. now rewrite app_nil_r.
  - cbn [read_loop_logged]. destruct (IH (S i) (iteration_logged dev i p)) as [-> ->].
    destruct (iteration_logged_entries dev i p) as [-> ->].
    cbn [loop_entries]. now rewrite app_nil_r, <- !app_assoc.
Qed.






(** *** The announcement of the cycle *)

Lemma sets_announced_snoc f l e :
  not_set e -> sets_announced f l -> sets_announced f (l ++ [e]).
Proof.
  intros He Hl l1 v l2 Heq.
  apply snoc_split in Heq as [(_ & <- & _) | (l2' & _ & ->)]; [contradiction |].
  now apply (Hl l1 v l2').
Qed.

Lemma sets_announced_app f l m :
  Forall not_set m -> sets_announced f l -> sets_announced f (l ++ m).
Proof.
  intros Hm. revert l. induction Hm as [|e m He Hm IH]; intros l Hl.
  - now rewrite app_nil_r.
  - change (e :: m) with ([e] ++ m). rewrite app_assoc.
    now apply IH, sets_announced_snoc.
Qed.

Lemma sets_announced_set f l :
  sets_announced f l ->
  sets_announced f (l ++ [Log (setting_cycle f); Do (SetCycle (uint8 (cycle f)))]).
Proof.
  intros Hl l1 v l2 Heq.
  change (l ++ [Log (setting_cycle f); Do (SetCycle (uint8 (cycle f)))])
    with (l ++ [Log (setting_cycle f)] ++ [Do (SetCycle (uint8 (cycle f)))]) in Heq.
  rewrite app_assoc in Heq.
  apply snoc_split in Heq as [(_ & Hv & ->) | (l2' & _ & Heq)].
  - injection Hv as ->. split; [reflexivity |]. now exists l.
  - now apply (sets_announced_snoc f l (Log (setting_cycle f)) I Hl l1 v l2').
Qed.

Ltac announce :=
  cbn [entries exit_logged log act_logged];
  repeat first
    [ assumption
    | apply sets_announced_snoc; [exact I |] ].

Lemma set_cycle_announced f dev p :
  sets_announced f (entries p) -> sets_announced f (entries (set_cycle_logged f dev p)).
Proof.
  intros Hp. unfold set_cycle_logged. apply (sets_announced_set f) in Hp.
  destruct (dev_SetCycle dev (uint8 (cycle f))) as [err|];
    cbn [entries exit_logged log act_logged]; rewrite <- ?app_assoc; cbn [app];
    [| exact Hp].
  change (sets_announced f
            (entries p ++ [Log (setting_cycle f); Do (SetCycle (uint8 (cycle f)))]
               ++ [Log (slog_Error "Cannot set current cycle" [("error", ErrorValue err)]);
                   Do (Exit 1)])).
  rewrite app_assoc. apply sets_announced_app; [now repeat constructor | exact Hp].
Qed.

Lemma and_then_logged_announced f p (k : logged float64 -> logged float64) :
  sets_announced f (entries p) ->
  (forall p', sets_announced f (entries p') -> sets_announced f (entries (k p'))) ->
  sets_announced f (entries (and_then_logged p k)).
Proof. intros Hp Hk. unfold and_then_logged. destruct (lstate p); auto. Qed.

Lemma loop_entries_not_set dev n : forall i, Forall not_set (loop_entries dev n i).
Proof.
  induction n as [|n IH]; intros i; [constructor |].
  cbn [loop_entries]. apply Forall_app_2; [| apply IH].
  destruct (dev_Get dev i); now repeat constructor.
Qed.

Lemma recordMetrics_logged_announced f dev n :
  sets_announced f (entries (recordMetrics_logged f dev n)).
Proof.
  unfold recordMetrics_logged, startup_logged.
  repeat apply and_then_logged_announced.
  - assert (Hp' : sets_announced f (entries (@start_logged float64)))
      by (intros [|e l1] v l2 Heq; discriminate).
    unfold open_sensor_logged. destruct (dev_New dev); announce.
  - intros p' Hp'. unfold make_passive_logged.
    destruct (Executor.sensorMakePassive (dev_MakePassive dev)) as [st|]; [| exact Hp'].
    cbv zeta.
    assert (Hst : sets_announced f
              (entries p' ++ ((λ ev, Do (@Passive float64 ev)) <$> Executor.trace st))).
    { apply sets_announced_app; [| exact Hp']. apply Forall_fmap, Forall_true.
      now intros ev. }
    destruct (Executor.responseError st); announce.
  - intros p' Hp'. unfold configure_cycle_logged.
    destruct (forceSetCycle f); [now apply set_cycle_announced |].
    destruct (dev_Cycle dev) as [currentCycle | err]; [| announce].
    destruct (bool_decide _); [apply set_cycle_announced |]; announce.
  - intros p' Hp'. unfold make_active_logged. destruct (dev_MakeActive dev); announce.
  - intros p' Hp'.
    destruct (read_loop_logged_entries dev n 0 p') as [-> _].
    apply sets_announced_app; [apply loop_entries_not_set | exact Hp'].
Qed.

(** X14.  Every [sensor.SetCycle] call comes right after the record
    "Setting sensor cycle", and the two need not agree: the record carries
    [cycle] as given on the command line, the call passes [uint8(cycle)].
    The logged minutes are the value written exactly when [cycle] is
    within 0..255. *)
Theorem logged_cycle_not_truncated f dev n l1 (v : Z) l2 :
  entries (recordMetrics_logged f dev n) = l1 ++ Do (SetCycle v) :: l2 ->
  v = uint8 (cycle f) /\
  (exists l1',
     l1 = l1' ++ [Log (slog_Info "Setting sensor cycle" [("minutes", IntValue (cycle f))])]) /\
  (cycle f = v <-> is_uint8 (cycle f)).
Proof.
  intros Heq.
  destruct (recordMetrics_logged_announced f dev n l1 v l2 Heq) as [-> Hl1].
  split; [reflexivity |]. split; [exact Hl1 |]. split.
  - intros Hv. apply uint8_fixed. now symmetry.
  - intros Hv. symmetry. now apply uint8_id.
Qed.

End Facts.

Lemma logged_cycle_not_truncated_witness :
  let l1 := [Do (New "/dev/ttyUSB0"); Do (Passive (Executor.EvGo 0));
             Do (Passive (Executor.EvResponse 0 None));
             Log (slog_Info "Setting sensor cycle" [("minutes", IntValue 261)])] in
  let l2 := [Log (slog_Info "Switching sensor to active mode" []); Do MakeActive] in
  entries (recordMetrics_logged (usb 261 true) (healthy 5) 0) = l1 ++ Do (SetCycle 5) :: l2 /\
  5 = uint8 261 /\
  (exists l1',
     l1 = l1' ++ [Log (slog_Info "Setting sensor cycle" [("minutes", IntValue 261)])]) /\
  (261 = 5 <-> is_uint8 261).
Proof.
  intros l1 l2. split; [reflexivity |].
  apply (logged_cycle_not_truncated (usb 261 true) (healthy 5) 0 l1 5 l2).
  reflexivity.
Defined.

(** The log of a start-up that fails on the active mode, and that of two
    reads, the second of which fails. *)
Example active_fails_logged :
  entries (recordMetrics_logged (usb 5 false)
             (with_MakeActive (Some "EOF") (healthy 5)) 3) =
  [Do (New "/dev/ttyUSB0"); Do (Passive (Executor.EvGo 0));
   Do (Passive (Executor.EvResponse 0 None)); Do Cycle;
   Log (slog_Info "Switching sensor to active mode" []); Do MakeActive;
   Log (slog_Error "Cannot switch sensor to active mode" [("error", ErrorValue "EOF")]);
   Do (Exit 1)].
Proof. reflexivity. Qed.

Example two_reads_logged :
  entries (recordMetrics_logged (usb 5 false) (healthy 5) 2) =
  [Do (New "/dev/ttyUSB0"); Do (Passive (Executor.EvGo 0));
   Do (Passive (Executor.EvResponse 0 None)); Do Cycle;
   Log (slog_Info "Switching sensor to active mode" []); Do MakeActive;
   Do Get;
   Log (slog_Info "Sensor measurement results"
          [("data", PointValue {| PM25 := 12.3%Q; PM10 := 20.1%Q |})]);
   Do (GaugeSet "pm2.5" 12.3%Q); Do (GaugeSet "pm10" 20.1%Q);
   Do Get;
   Log (slog_Error "Getting sensor measurement error" [("error", ErrorValue "EOF")])].
Proof. reflexivity. Qed.

End LoggedFacts.
